(** * Civic-issues backend (src/api/src/index.ts)

    A shallow embedding of the Express handlers of the issue-intake
    backend: signup and login, the media heuristic, issue creation,
    listing, status update and the weekly escalation timer.

    Conventions of the embedding:
    - a JavaScript string is a [string]; its characters stand for code units;
    - [Date.now()] is an integer number of milliseconds, a [Z], and is an
      explicit argument [now] of every handler that reads the clock;
    - the two in-memory tables are JavaScript objects used as maps: own
      properties in creation order, enumerated by [Object.values];
    - a handler takes the fields it destructures from the request, typed as
      the TypeScript source types them ([None] is [undefined] or [null]),
      and returns its response together with the next state. *)

From Stdlib Require Import ZArith NArith QArith List String Ascii Bool Lia.
From Stdlib Require Import Permutation Sorted.
Import ListNotations.

Local Open Scope string_scope.
Local Open Scope Z_scope.

(** ** The parts of the JavaScript runtime the handlers rely on *)

Module JS.

(** [!s] is false exactly for a defined, non-empty string. *)
Definition truthy (s : option string) : bool :=
  match s with
  | Some (String _ _) => true
  | _ => false
  end.

(** [s.startsWith(p)] *)
Fixpoint startsWith (s p : string) {struct p} : bool :=
  match p, s with
  | EmptyString, _ => true
  | String a p', String b s' => Ascii.eqb a b && startsWith s' p'
  | String _ _, EmptyString => false
  end.

(** [s.slice(start)] for a non-negative [start]. *)
Fixpoint slice (start : nat) (s : string) : string :=
  match start, s with
  | O, _ => s
  | S n, String _ r => slice n r
  | S _, EmptyString => EmptyString
  end.

(** [s.split(sep)] for a one-character separator: never the empty array. *)
Fixpoint split (sep : ascii) (s : string) : list string :=
  match s with
  | EmptyString => [EmptyString]
  | String c r =>
      if Ascii.eqb c sep then EmptyString :: split sep r
      else match split sep r with
           | h :: t => String c h :: t
           | [] => [String c EmptyString]
           end
  end.

(** [Math.ceil(x / 4)] for an integer [x]: the quotient is exact in
    floating point, so integer arithmetic gives the same number. *)
Definition ceil_div4 (x : Z) : Z := (x + 3) / 4.

(** *** [Number.prototype.toString(36)] on integers *)

Definition digits36 : string := "0123456789abcdefghijklmnopqrstuvwxyz".

Definition digit36 (d : N) : ascii :=
  match String.get (N.to_nat d) digits36 with
  | Some c => c
  | None => "0"%char
  end.

Fixpoint to_digits36 (fuel : nat) (n : N) (acc : string) : string :=
  match fuel with
  | O => acc
  | S f =>
      let acc' := String (digit36 (n mod 36)) acc in
      if (n / 36 =? 0)%N then acc' else to_digits36 f (n / 36)%N acc'
  end.

(** One character per bit is more than enough fuel. *)
Definition N_toString36 (n : N) : string :=
  to_digits36 (S (N.to_nat (N.log2 n))) n "".

Definition toString36 (z : Z) : string :=
  match z with
  | Z0 => "0"
  | Zpos p => N_toString36 (Npos p)
  | Zneg p => String "-"%char (N_toString36 (Npos p))
  end.

(** Reading a base-36 numeral back, most significant digit first. *)
Definition undigit (c : ascii) : N :=
  let n := N_of_ascii c in if (n <? 58)%N then (n - 48)%N else (n - 87)%N.

Fixpoint decode_from (a : N) (s : string) : N :=
  match s with
  | EmptyString => a
  | String c r => decode_from (36 * a + undigit c)%N r
  end.

(** *** Objects used as maps, and the order of their own properties

    An object is the list of its own properties in the order of their
    creation.  Assigning to an existing key keeps its place; a new key goes
    last.  Enumeration ([Object.values]) lists the keys that are array
    indices first, in ascending numeric order, then the others in creation
    order. *)

Definition Obj (V : Type) : Type := list (string * V).

Section Objects.
Context {V : Type}.

Fixpoint get (k : string) (o : Obj V) : option V :=
  match o with
  | [] => None
  | (k', v) :: r => if String.eqb k k' then Some v else get k r
  end.

Fixpoint set (k : string) (v : V) (o : Obj V) : Obj V :=
  match o with
  | [] => [(k, v)]
  | (k', v') :: r =>
      if String.eqb k k' then (k', v) :: r else (k', v') :: set k v r
  end.

Definition keys (o : Obj V) : list string := map fst o.

Definition is_digit (c : ascii) : bool :=
  let n := N_of_ascii c in ((48 <=? n) && (n <=? 57))%N.

Fixpoint decimal_value (acc : N) (s : string) : option N :=
  match s with
  | EmptyString => Some acc
  | String c r =>
      if is_digit c
      then decimal_value (10 * acc + (N_of_ascii c - 48))%N r
      else None
  end.

(** A key is an array index when it is the canonical decimal numeral of
    an integer below 2^32 - 1. *)
Definition array_index (k : string) : option N :=
  match k with
  | EmptyString => None
  | String c r =>
      if Ascii.eqb c "0"%char && negb (String.eqb r EmptyString) then None
      else match decimal_value 0%N k with
           | Some n => if (n <? 4294967295)%N then Some n else None
           | None => None
           end
  end.

Fixpoint insert_by_index (e : N * V) (l : list (N * V)) : list (N * V) :=
  match l with
  | [] => [e]
  | e' :: r =>
      if (fst e <=? fst e')%N then e :: l else e' :: insert_by_index e r
  end.

Fixpoint sort_by_index (l : list (N * V)) : list (N * V) :=
  match l with
  | [] => []
  | e :: r => insert_by_index e (sort_by_index r)
  end.

Fixpoint indexed (o : Obj V) : list (N * V) :=
  match o with
  | [] => []
  | (k, v) :: r =>
      match array_index k with
      | Some n => (n, v) :: indexed r
      | None => indexed r
      end
  end.

Fixpoint named (o : Obj V) : list V :=
  match o with
  | [] => []
  | (k, v) :: r =>
      match array_index k with
      | Some _ => named r
      | None => v :: named r
      end
  end.

Definition Object_values (o : Obj V) : list V :=
  map snd (sort_by_index (indexed o)) ++ named o.

(** [Array.prototype.find] *)
Fixpoint find (p : V -> bool) (l : list V) : option V :=
  match l with
  | [] => None
  | x :: r => if p x then Some x else find p r
  end.

(** A [forEach] over [Object.values] whose body mutates only the object
    it is handed: every stored object is rewritten once, in place. *)
Definition forEach_value (f : V -> V) (o : Obj V) : Obj V :=
  map (fun kv => (fst kv, f (snd kv))) o.

End Objects.

(** *** [Number(s)] and the comparisons of a number with an integer *)

Inductive Num : Type :=
| NaN
| Infinity (negative : bool)
| Finite (q : Q).

Definition truthy_num (n : Num) : bool :=
  match n with
  | NaN => false
  | Infinity _ => true
  | Finite q => negb (Qeq_bool q 0)
  end.

(** [z >= n] *)
Definition ge_num (z : Z) (n : Num) : bool :=
  match n with
  | NaN => false
  | Infinity negative => negative
  | Finite q => Qle_bool q (inject_Z z)
  end.

(** [z <= n] *)
Definition le_num (z : Z) (n : Num) : bool :=
  match n with
  | NaN => false
  | Infinity negative => negb negative
  | Finite q => Qle_bool (inject_Z z) q
  end.

End JS.

(** ** Data model (lines 6-26) *)

Inductive Role : Type := User_role | Admin.

Record User : Type := mkUser {
  u_id : string;
  u_email : option string;
  u_aadhaar : option string;
  u_password : string;
  u_role : Role;
  u_language : option string
}.

Inductive MediaType : Type := photo | video | audio.

Record Media : Type := mkMedia {
  m_type : MediaType;
  m_data : string
}.

Inductive IssueStatus : Type := Reported | Verified | Assigned | Resolved | Spam.

Inductive Priority : Type := Low | Medium | High.

Record Location : Type := mkLocation { lat : Q; lng : Q }.

Record Issue : Type := mkIssue {
  id : string;
  userId : string;
  category : string;
  description : string;
  priority : Priority;
  department : option string;
  emergency : bool;
  status : IssueStatus;
  location : option Location;
  media : option Media;
  voice : option Media;
  createdAt : Z;
  updatedAt : Z
}.

Definition status_string (s : IssueStatus) : string :=
  match s with
  | Reported => "Reported"
  | Verified => "Verified"
  | Assigned => "Assigned"
  | Resolved => "Resolved"
  | Spam => "Spam"
  end.

Definition priority_string (p : Priority) : string :=
  match p with
  | Low => "Low"
  | Medium => "Medium"
  | High => "High"
  end.

Definition status_eqb (a b : IssueStatus) : bool :=
  String.eqb (status_string a) (status_string b).

Definition media_type_eqb (a b : MediaType) : bool :=
  match a, b with
  | photo, photo | video, video | audio, audio => true
  | _, _ => false
  end.

(** ** Server state (lines 34-36)

    [users] and [issues] are the two tables.  Both are object literals, so
    a read [issues[id]] of a key that is not an own property falls through
    to [Object.prototype].  The only handler that reads a table by a key
    taken from the request is PATCH /issues/:id; it can also write its four
    fields onto [Object.prototype] itself, which [object_prototype]
    records. *)

Record Patched : Type := mkPatched {
  x_status : option IssueStatus;
  x_department : option string;
  x_priority : option Priority;
  x_updatedAt : option Z
}.

Record State : Type := mkState {
  users : JS.Obj User;
  issues : JS.Obj Issue;
  object_prototype : Patched
}.

Definition initial_state : State :=
  mkState [] [] (mkPatched None None None None).

(** The methods every object inherits from [Object.prototype]. *)
Definition Object_prototype_methods : list string :=
  [ "constructor"; "__defineGetter__"; "__defineSetter__"; "hasOwnProperty";
    "__lookupGetter__"; "__lookupSetter__"; "isPrototypeOf";
    "propertyIsEnumerable"; "toString"; "valueOf"; "toLocaleString" ].

Fixpoint mem (k : string) (l : list string) : bool :=
  match l with
  | [] => false
  | x :: r => String.eqb k x || mem k r
  end.

(** What a read [issues[id]] finds on the prototype when [id] is not an
    own property. *)
Inductive Inherited : Type :=
| ThePrototype
| InheritedMethod
| InheritedValue (is_truthy : bool)
| Undefined.

Definition is_some {A : Type} (o : option A) : bool :=
  match o with Some _ => true | None => false end.

Definition inherited (k : string) (p : Patched) : Inherited :=
  if String.eqb k "__proto__" then ThePrototype
  else if mem k Object_prototype_methods then InheritedMethod
  else if String.eqb k "status" then
    match x_status p with Some _ => InheritedValue true | None => Undefined end
  else if String.eqb k "department" then
    match x_department p with
    | Some d => InheritedValue (JS.truthy (Some d))
    | None => Undefined
    end
  else if String.eqb k "priority" then
    match x_priority p with Some _ => InheritedValue true | None => Undefined end
  else if String.eqb k "updatedAt" then
    match x_updatedAt p with
    | Some t => InheritedValue (negb (t =? 0))
    | None => Undefined
    end
  else Undefined.

(** ** Responses *)

Record UserView : Type := mkUserView {
  v_id : string;
  v_role : Role;
  v_email : option string;
  v_aadhaar : option string;
  v_language : option string
}.

Definition view (u : User) : UserView :=
  mkUserView (u_id u) (u_role u) (u_email u) (u_aadhaar u) (u_language u).

(** [Error code message] is [res.status(code).json({ error: message })];
    the next four are the 200 answers of the handlers; [OtherJson] is the
    200 answer of PATCH when what it found is not an issue, and [Uncaught]
    an exception left to Express. *)
Inductive Response : Type :=
| Error (code : Z) (message : string)
| TokenUser (token : string) (user : UserView)
| Verdict (isGenuine : bool) (reason : option string) (category : string)
| IssueList (l : list Issue)
| IssueJson (i : Issue)
| OtherJson
| Uncaught.

(** ** Authentication (lines 41-59) *)

Record SignupBody : Type := mkSignup {
  s_email : option string;
  s_aadhaar : option string;
  s_password : option string;
  s_role : option Role;
  s_language : option string
}.

Definition token_of (uid : string) : string := "dev-" ++ uid.

Definition signup (now : Z) (b : SignupBody) (st : State) : Response * State :=
  match s_password b, s_role b with
  | Some pw, Some r =>
      if (negb (JS.truthy (s_email b)) && negb (JS.truthy (s_aadhaar b)))
         || negb (JS.truthy (Some pw))
      then (Error 400 "email or aadhaar, password and role are required", st)
      else
        let id := JS.toString36 now in
        let user := mkUser id (s_email b) (s_aadhaar b) pw r (s_language b) in
        (TokenUser (token_of id)
                   (mkUserView id r (s_email b) (s_aadhaar b) (s_language b)),
         mkState (JS.set id user (users st)) (issues st) (object_prototype st))
  | _, _ => (Error 400 "email or aadhaar, password and role are required", st)
  end.

(** [x === identifier] for an optional field [x] and a string. *)
Definition field_is (x : option string) (s : string) : bool :=
  match x with
  | Some e => String.eqb e s
  | None => false
  end.

Definition credentials_match (identifier password : string) (u : User) : bool :=
  (field_is (u_email u) identifier || field_is (u_aadhaar u) identifier)
  && String.eqb (u_password u) password.

Definition login (identifier password : string) (st : State) : Response :=
  match JS.find (credentials_match identifier password)
                (JS.Object_values (users st)) with
  | None => Error 401 "Invalid credentials"
  | Some found =>
      TokenUser (token_of (u_id found)) (view found)
  end.

(** ** The media heuristic (lines 62-80) *)

Definition comma : ascii := ","%char.

(** [media.data.split(',')[1] ?? ''] *)
Definition payload (data : string) : string :=
  match nth_error (JS.split comma data) 1 with
  | Some s => s
  | None => ""
  end.

Definition sizeBytes (data : string) : Z :=
  JS.ceil_div4 (Z.of_nat (String.length (payload data)) * 3).

(** [data] is a string by its type, so [split] cannot throw and the
    [catch] branch ('Invalid media data') is not reached. *)
Definition verifyMediaHeuristic (media : option Media) : bool * option string :=
  match media with
  | None => (false, Some "No media")
  | Some m =>
      if media_type_eqb (m_type m) photo && (sizeBytes (m_data m) <? 10000)
      then (false, Some "Image too small")
      else (true, None)
  end.

Definition verify (media : option Media) : Response :=
  let r := verifyMediaHeuristic media in
  Verdict (fst r) (snd r) "Other".

(** ** Issues (lines 83-136) *)

Record Query : Type := mkQuery {
  q_category : option string;
  q_status : option string;
  q_priority : option string;
  q_from : option string;
  q_to : option string
}.

Definition no_filters : Query := mkQuery None None None None None.

Definition when {A : Type} (c : bool) (f : list A -> list A) (l : list A) : list A :=
  if c then f l else l.

Section Listing.
(** [Number] applied to a query string. *)
Variable Number : string -> JS.Num.

Definition parse_bound (s : option string) : option JS.Num :=
  match s with
  | Some x => if JS.truthy (Some x) then Some (Number x) else None
  | None => None
  end.

Definition bound_filter (cmp : Z -> JS.Num -> bool) (b : option JS.Num)
           (l : list Issue) : list Issue :=
  match b with
  | Some n => if JS.truthy_num n then filter (fun i => cmp (createdAt i) n) l else l
  | None => l
  end.

Definition get_issues (q : Query) (st : State) : Response :=
  let list := JS.Object_values (issues st) in
  let list := when (JS.truthy (q_category q))
                (filter (fun i => field_is (q_category q) (category i))) list in
  let list := when (JS.truthy (q_status q))
                (filter (fun i => field_is (q_status q) (status_string (status i)))) list in
  let list := when (JS.truthy (q_priority q))
                (filter (fun i => field_is (q_priority q) (priority_string (priority i)))) list in
  let fromTs := parse_bound (q_from q) in
  let toTs := parse_bound (q_to q) in
  let list := bound_filter JS.ge_num fromTs list in
  let list := bound_filter JS.le_num toTs list in
  IssueList list.
End Listing.

Record IssueBody : Type := mkIssueBody {
  b_description : option string;
  b_category : option string;
  b_priority : option Priority;
  b_emergency : option bool;
  b_location : option Location;
  b_media : option Media;
  b_voice : option Media;
  b_department : option string
}.

Definition Boolean (b : option bool) : bool :=
  match b with Some true => true | _ => false end.

Definition default {A : Type} (o : option A) (d : A) : A :=
  match o with Some x => x | None => d end.

Definition initial_status (media : option Media) : IssueStatus :=
  if fst (verifyMediaHeuristic media) then Reported else Spam.

(** Lines 97-100: the user identifier a [token] header stands for, when
    the header is accepted. *)
Definition resolve (token : option string) : option string :=
  match token with
  | None => None
  | Some tok =>
      if negb (JS.truthy (Some tok)) || negb (JS.startsWith tok "dev-")
      then None
      else Some (JS.slice 4 tok)
  end.

Definition post_issues (now : Z) (token : option string) (b : IssueBody)
           (st : State) : Response * State :=
  match resolve token with
  | None => (Error 401 "Unauthorized", st)
  | Some userId =>
      match b_description b, b_priority b with
      | Some d, Some p =>
          if negb (JS.truthy (Some d))
          then (Error 400 "description and priority are required", st)
          else
            let id := JS.toString36 now in
            let issue :=
              mkIssue id userId (default (b_category b) "Other") d p
                      (b_department b) (Boolean (b_emergency b))
                      (initial_status (b_media b))
                      (b_location b) (b_media b) (b_voice b) now now in
            (IssueJson issue,
             mkState (users st) (JS.set id issue (issues st))
                     (object_prototype st))
      | _, _ => (Error 400 "description and priority are required", st)
      end
  end.

Record PatchBody : Type := mkPatchBody {
  p_status : option IssueStatus;
  p_department : option string;
  p_priority : option Priority
}.

Definition or_else {A : Type} (new old : option A) : option A :=
  match new with Some x => Some x | None => old end.

(** Lines 131-134 on an issue. *)
Definition patch_issue (now : Z) (b : PatchBody) (existing : Issue) : Issue :=
  mkIssue (id existing) (userId existing) (category existing)
          (description existing)
          (default (p_priority b) (priority existing))
          (or_else (p_department b) (department existing))
          (emergency existing)
          (default (p_status b) (status existing))
          (location existing) (media existing) (voice existing)
          (createdAt existing) now.

(** Lines 131-134 on [Object.prototype]. *)
Definition patch_prototype (now : Z) (b : PatchBody) (p : Patched) : Patched :=
  mkPatched (or_else (p_status b) (x_status p))
            (or_else (p_department b) (x_department p))
            (or_else (p_priority b) (x_priority p))
            (Some now).

(** PATCH /issues/:id (lines 126-136).  [existing] is [issues[id]]:
    - a stored issue is updated in place and sent back;
    - [undefined], or an inherited falsy value, is answered 404;
    - [Object.prototype] itself (for '__proto__') and an inherited method
      (the [Object] function for 'constructor', and so on) are truthy
      objects: the guard of line 129 lets them through, lines 131-134 assign
      onto them, and the answer is the 200 of line 135;
    - an inherited non-empty string or non-zero number passes the guard
      too, but a property cannot be created on a primitive in strict code
      (the file is a module): the assignment throws and the request ends
      in the error handler of Express. *)
Definition patch_issues (now : Z) (id : string) (b : PatchBody) (st : State)
  : Response * State :=
  match JS.get id (issues st) with
  | Some existing =>
      let updated := patch_issue now b existing in
      (IssueJson updated,
       mkState (users st) (JS.set id updated (issues st)) (object_prototype st))
  | None =>
      match inherited id (object_prototype st) with
      | Undefined | InheritedValue false => (Error 404 "Issue not found", st)
      | ThePrototype =>
          (OtherJson,
           mkState (users st) (issues st)
                   (patch_prototype now b (object_prototype st)))
      | InheritedMethod => (OtherJson, st)
      | InheritedValue true => (Uncaught, st)
      end
  end.

(** ** The escalation timer (lines 139-149) *)

Definition oneWeekMs : Z := 7 * 24 * 60 * 60 * 1000.

Definition is_stale (now : Z) (issue : Issue) : bool :=
  negb (status_eqb (status issue) Resolved) && (oneWeekMs <? now - createdAt issue).

Definition or_default (d : option string) (dflt : string) : option string :=
  if JS.truthy d then d else Some dflt.

Definition escalate (now : Z) (issue : Issue) : Issue :=
  if is_stale now issue then
    mkIssue (id issue) (userId issue) (category issue) (description issue)
            (priority issue)
            (or_default (department issue) "Commissioner")
            (emergency issue) Assigned
            (location issue) (media issue) (voice issue)
            (createdAt issue) now
  else issue.

Definition tick (now : Z) (st : State) : State :=
  mkState (users st) (JS.forEach_value (escalate now) (issues st))
          (object_prototype st).

(** ** Runs of the server

    Node runs each handler and each timer callback to completion, so a run
    of the server is a sequence of events, each at the clock value it
    reads.  Only the events that write the state are listed. *)

Inductive Event : Type :=
| Signup (b : SignupBody)
| PostIssues (token : option string) (b : IssueBody)
| PatchIssues (id : string) (b : PatchBody)
| Tick.

Definition handle (now : Z) (e : Event) (st : State) : State :=
  match e with
  | Signup b => snd (signup now b st)
  | PostIssues token b => snd (post_issues now token b st)
  | PatchIssues id b => snd (patch_issues now id b st)
  | Tick => tick now st
  end.

(** The states the server can be in, whatever the clock does. *)
Inductive reachable : State -> Prop :=
| reach_start : reachable initial_state
| reach_step now e st : reachable st -> reachable (handle now e st).

(** The states the server can be in at clock value [t] when the clock
    never goes back. *)
Inductive reachable_at : Z -> State -> Prop :=
| at_start t : reachable_at t initial_state
| at_step t now e st :
    reachable_at t st -> t <= now -> reachable_at now (handle now e st).

(** Most recent first: creation times never increase along the list. *)
Definition most_recent_first (l : list Issue) : Prop :=
  Sorted (fun a b => createdAt b <= createdAt a) l.

(** The invariant of runs whose clock never goes back. *)
Definition stamped (t : Z) (st : State) : Prop :=
  forall k issue, JS.get k (issues st) = Some issue ->
                  createdAt issue <= updatedAt issue <= t.

(** ** Sample requests and runs *)

Definition placeholder_url : string :=
  "https://via.placeholder.com/400x300.png?text=Pothole+Image".

Definition sample_body : IssueBody :=
  mkIssueBody (Some "pothole on 5th") None (Some Medium) None None None None None.

Definition photo_body (description : string) (p : Priority) : IssueBody :=
  mkIssueBody (Some description) None (Some p) None None None None None.

(** Two issues, created one millisecond apart. *)
Definition two_issues : State :=
  snd (post_issues 1700000000001 (Some "dev-loyv9qp8") (photo_body "garbage" Low)
         (snd (post_issues 1700000000000 (Some "dev-loyv9qp8")
                 (photo_body "pothole" High) initial_state))).

(** A pothole report that was created, then resolved by an administrator. *)
Definition pothole_id : string := JS.toString36 1700000000000.

Definition resolved_pothole : State :=
  snd (patch_issues 1700000360000 pothole_id (mkPatchBody (Some Resolved) None None)
         (snd (post_issues 1700000000000 (Some "dev-loyv9qp8")
                 (photo_body "pothole" High) initial_state))).

(** A report that carries a short video clip, which the heuristic accepts. *)
Definition clip : Media := mkMedia video "data:video/mp4;base64,AAAAIGZ0eXBpc29t".

Definition reported_pothole : State :=
  snd (post_issues 1700000000000 (Some "dev-loyv9qp8")
         (mkIssueBody (Some "pothole") None (Some High) None None
                      (Some clip) None None)
         initial_state).

Definition asha : SignupBody :=
  mkSignup (Some "asha@example.org") None (Some "s3cret") (Some User_role) (Some "en").

(** The same e-mail address and password registered twice, one second apart. *)
Definition registered_twice : Response * State :=
  signup 1700000001000 asha (snd (signup 1700000000000 asha initial_state)).

(** Two reports filed within the same millisecond. *)
Definition pothole_report : Issue :=
  mkIssue pothole_id "loyv9qp8" "Other" "pothole" High None false Spam
          None None None 1700000000000 1700000000000.

Definition garbage_report : Issue :=
  mkIssue pothole_id "loyvjfmw" "Other" "garbage" Low None false Spam
          None None None 1700000000000 1700000000000.

Definition ravi : SignupBody :=
  mkSignup (Some "ravi@example.org") None (Some "hunter2") (Some Admin) None.

(** A stand-in for [Number] on the two strings used below: ['0'] is 0
    and ['abc'] is NaN. *)
Definition zero_or_NaN (s : string) : JS.Num :=
  if String.eqb s "0" then JS.Finite 0 else JS.NaN.

(** The body that stands for a status update [earlier] followed by a
    status update [later]: a field of [later] wins when it is supplied. *)
Definition merge_patch (later earlier : PatchBody) : PatchBody :=
  mkPatchBody (or_else (p_status later) (p_status earlier))
              (or_else (p_department later) (p_department earlier))
              (or_else (p_priority later) (p_priority earlier)).

(** ** The front end (src/unnamed/part_000, the later text of src/App.tsx)

    The parts of the React application that compute on data: what the sign-in
    form and the report form send to the server, the updates of the local
    list of issues, the filter of the dashboard, the size check of a captured
    photo and the classification of a report.  A state update handed to
    [setIssues] is the function from the previous list to the next one; the
    call to the generative model is a parameter. *)

Module App.

(** [s.includes(c)] for a one-character [c]. *)
Fixpoint includes (c : ascii) (s : string) : bool :=
  match s with
  | EmptyString => false
  | String a r => Ascii.eqb a c || includes c r
  end.

Definition role_string (r : Role) : string :=
  match r with
  | User_role => "User"
  | Admin => "Admin"
  end.

Record User : Type := mkUser { name : string; role : Role }.

(** The [status] of a local issue is a string: [handleAddIssue] stores one
    that is not in [IssueStatus]. *)
Record Issue : Type := mkIssue {
  id : string;
  category : string;
  description : string;
  location : option Location;
  media : Media;
  status : string;
  reportedBy : string;
  priority : option Priority;
  emergency : option bool;
  department : option string;
  voice : option Media
}.

(** What [ReportIssue] hands to [onSubmit]: an issue without [id] and
    [status], its category optional. *)
Record Draft : Type := mkDraft {
  d_category : option string;
  d_description : string;
  d_location : option Location;
  d_media : Media;
  d_reportedBy : string;
  d_priority : option Priority;
  d_emergency : option bool;
  d_department : option string;
  d_voice : option Media
}.

Definition ISSUE_CATEGORIES : list string :=
  ["Pothole"; "Garbage"; "Streetlight"; "Damaged Sign"; "Graffiti"; "Other"].

(** *** AuthPage.handleSubmit (lines 205-222) *)

Definition at_sign : ascii := "@"%char.

(** The signup payload, as the server reads it: [JSON.stringify] leaves
    out the field that is [undefined]. *)
Definition signup_payload (identifier password : string) (r : Role)
           (language : string) : SignupBody :=
  mkSignup (if includes at_sign identifier then Some identifier else None)
           (if negb (includes at_sign identifier) then Some identifier else None)
           (Some password) (Some r) (Some language).

(** [onLogin({ name: data.user.role, role: data.user.role })] *)
Definition logged_in (v : UserView) : User :=
  mkUser (role_string (v_role v)) (v_role v).

(** *** ReportIssue: takePhoto (lines 310-328) and handleSubmit (399-409) *)

(** [dataUrl.split(',')[1] || ''] *)
Definition base64_of (dataUrl : string) : string :=
  match nth_error (JS.split comma dataUrl) 1 with
  | Some (String c r) => String c r
  | _ => ""
  end.

Definition photo_size (dataUrl : string) : Z :=
  JS.ceil_div4 (Z.of_nat (String.length (base64_of dataUrl)) * 3).

(** The media state after [takePhoto]: [None] when the photo is refused. *)
Definition takePhoto (dataUrl : string) : option Media :=
  if 20 * 1024 * 1024 <? photo_size dataUrl then None
  else Some (mkMedia photo dataUrl).

(** What [handleSubmit] hands to [onSubmit], [None] when it only sets the
    error message; [category] is the answer of the classification. *)
Definition handleSubmit (media : option Media) (description : string)
           (location : option Location) (p : Priority) (emergency : bool)
           (audioUrl : option string) (category : string) : option Draft :=
  match media, location with
  | Some m, Some l =>
      if JS.truthy (Some description) then
        Some (mkDraft (Some category) description (Some l) m "User" (Some p)
                      (Some emergency) None
                      (if JS.truthy audioUrl
                       then option_map (mkMedia audio) audioUrl
                       else None))
      else None
  | _, _ => None
  end.

(** *** classifyIssueWithGemini (lines 64-100) *)

Definition is_line_terminator (c : ascii) : bool :=
  let n := N_of_ascii c in ((n =? 10) || (n =? 13))%N.

(** The text after a ':' up to the next ';' when no line break comes
    first. *)
Fixpoint until_semicolon (s : string) : option string :=
  match s with
  | EmptyString => None
  | String c r =>
      if Ascii.eqb c ";"%char then Some EmptyString
      else if is_line_terminator c then None
      else option_map (String c) (until_semicolon r)
  end.

(** [header.match(/:(.*?);/)?.[1]]: the leftmost ':' that has a ';' after
    it on its line, and the text between the two. *)
Fixpoint mime_type (header : string) : option string :=
  match header with
  | EmptyString => None
  | String c r =>
      if Ascii.eqb c ":"%char then
        match until_semicolon r with
        | Some m => Some m
        | None => mime_type r
        end
      else mime_type r
  end.

Definition is_white_space (c : ascii) : bool :=
  let n := N_of_ascii c in
  (((9 <=? n) && (n <=? 13)) || (n =? 32) || (n =? 160))%N.

Fixpoint trim_start (s : string) : string :=
  match s with
  | String c r => if is_white_space c then trim_start r else s
  | EmptyString => EmptyString
  end.

(** [s.trimEnd()]: a character is dropped when it is white space and
    nothing but white space follows it. *)
Fixpoint trim_end (s : string) : string :=
  match s with
  | EmptyString => EmptyString
  | String c r =>
      match trim_end r with
      | EmptyString => if is_white_space c then EmptyString else String c EmptyString
      | t => String c t
      end
  end.

Definition trim (s : string) : string := trim_end (trim_start s).

Fixpoint list_includes (x : string) (l : list string) : bool :=
  match l with
  | [] => false
  | y :: r => String.eqb y x || list_includes x r
  end.

Section Classification.
  (** The call [ai.models.generateContent] followed by [response.text], on
      the MIME type, the base-64 data and the kind of the media: [None] when
      the call fails or the response has no text. *)
Variable generate : string -> string -> MediaType -> option string.

Definition classifyIssueWithGemini (m : Media) : string :=
  match JS.split comma (m_data m) with
  | header :: String c r :: _ =>
      match mime_type header with
      | Some (String c' r') =>
          match generate (String c' r') (String c r) (m_type m) with
          | Some text =>
              let category := trim text in
              if list_includes category ISSUE_CATEGORIES then category
              else "Other"
          | None => "Other"
          end
      | _ => "Other"
      end
  | _ => "Other"
  end.
End Classification.

(** *** App: handleAddIssue (lines 747-770) and handleUpdateStatus (772-774) *)

Definition or_string (s : option string) (dflt : string) : string :=
  match s with
  | Some (String c r) => String c r
  | _ => dflt
  end.

(** [iso] is [new Date().toISOString()]. *)
Definition newIssue (iso : string) (d : Draft) : Issue :=
  mkIssue iso (or_string (d_category d) "Other") (d_description d)
          (d_location d) (d_media d) "Pending" (d_reportedBy d)
          (d_priority d) (d_emergency d) (d_department d) (d_voice d).

(** [setIssues(prev => [newIssue, ...prev])] *)
Definition handleAddIssue (iso : string) (d : Draft) (prev : list Issue)
  : list Issue :=
  newIssue iso d :: prev.

(** The request [handleAddIssue] sends: the [token] header, which is
    [localStorage.getItem('token') || ''], and the body as the server
    reads it. *)
Definition api_token (stored : option string) : option string :=
  Some (or_string stored "").

Definition api_body (i : Issue) : IssueBody :=
  mkIssueBody (Some (description i)) (Some (category i)) (Some Medium)
              (Some false) (location i) (Some (media i)) None None.

(** [setIssues(prev => prev.map(...))] *)
Definition handleUpdateStatus (target : string) (s : string)
           (prev : list Issue) : list Issue :=
  map (fun issue =>
         if String.eqb (id issue) target
         then mkIssue (id issue) (category issue) (description issue)
                      (location issue) (media issue) s (reportedBy issue)
                      (priority issue) (emergency issue) (department issue)
                      (voice issue)
         else issue)
      prev.

(** *** Dashboard (lines 578-594) *)

Record Filter : Type := mkFilter {
  f_category : option string;
  f_status : option string
}.

Definition getStatusColor (s : string) : option string :=
  if String.eqb s "Reported" then Some "bg-yellow-100 text-yellow-800"
  else if String.eqb s "Verified" then Some "bg-blue-100 text-blue-800"
  else if String.eqb s "Assigned" then Some "bg-purple-100 text-purple-800"
  else if String.eqb s "Resolved" then Some "bg-green-100 text-green-800"
  else None.

Definition visibleIssuesBase (user : User) (issues : list Issue) : list Issue :=
  match role user with
  | User_role => filter (fun i => String.eqb (reportedBy i) (name user)) issues
  | Admin => issues
  end.

Definition matches (f : Filter) (i : Issue) : bool :=
  let matchCategory :=
    if JS.truthy (f_category f) then field_is (f_category f) (category i)
    else true in
  let matchStatus :=
    if JS.truthy (f_status f) && negb (field_is (f_status f) "All")
    then field_is (f_status f) (status i)
    else true in
  matchCategory && matchStatus.

Definition userIssues (user : User) (f : Filter) (issues : list Issue)
  : list Issue :=
  filter (matches f) (visibleIssuesBase user issues).

End App.

(** A report the reporter marked as a High-priority emergency. *)
Definition urgent_draft : App.Draft :=
  App.mkDraft (Some "Pothole") "pothole on 5th" (Some (mkLocation 0 0)) clip
              "User" (Some High) (Some true) None None.

(** * Properties *)

(** ** The runtime primitives on concrete values *)

Example toString36_of_a_clock_value :
  JS.toString36 1700000000000 = "loyw3v28" /\ JS.toString36 36 = "10"
  /\ JS.toString36 0 = "0" /\ JS.toString36 (-37) = "-11".
Proof. repeat split. Qed.

Example split_on_commas :
  JS.split comma "data:image/png;base64,iVBOR" = ["data:image/png;base64"; "iVBOR"]
  /\ JS.split comma "a,b,,c" = ["a"; "b"; ""; "c"]
  /\ JS.split comma "" = [""].
Proof. repeat split. Qed.

Example array_indices_are_listed_first :
  JS.Object_values [("b", 1); ("10", 2); ("a", 3); ("9", 4)] = [4; 2; 1; 3].
Proof. reflexivity. Qed.

Example token_round_trip :
  resolve (Some (token_of "loyw3v28")) = Some "loyw3v28"
  /\ resolve (Some "loyw3v28") = None /\ resolve None = None.
Proof. repeat split. Qed.

(** ** Objects as maps *)

Section ObjectFacts.
Context {V : Type}.
Implicit Types (o : JS.Obj V) (k : string) (v : V).

Lemma get_set_same k v o : JS.get k (JS.set k v o) = Some v.
Proof.
  induction o as [|[k' v'] r IH]; simpl.
  - now rewrite String.eqb_refl.
  - destruct (String.eqb k k') eqn:E; simpl; rewrite E; auto.
Qed.

Lemma get_set_other k k' v o :
  k <> k' -> JS.get k' (JS.set k v o) = JS.get k' o.
Proof.
  intros Hne. induction o as [|[k0 v0] r IH]; simpl.
  - destruct (String.eqb k' k) eqn:E; auto.
    apply String.eqb_eq in E. congruence.
  - destruct (String.eqb k k0) eqn:E; simpl.
    + apply String.eqb_eq in E. subst k0.
      destruct (String.eqb k' k) eqn:E'; auto.
      apply String.eqb_eq in E'. congruence.
    + now rewrite IH.
Qed.

Lemma get_In k v o : JS.get k o = Some v -> In (k, v) o.
Proof.
  induction o as [|[k' v'] r IH]; simpl; [discriminate|].
  destruct (String.eqb k k') eqn:E.
  - apply String.eqb_eq in E. intros [= ->]. subst. now left.
  - auto.
Qed.

Lemma get_None_keys k o : JS.get k o = None <-> ~ In k (JS.keys o).
Proof.
  induction o as [|[k' v'] r IH]; simpl.
  - tauto.
  - destruct (String.eqb k k') eqn:E.
    + apply String.eqb_eq in E. subst. split; [discriminate | tauto].
    + apply String.eqb_neq in E. rewrite IH. split.
      * intros H [H1|H1]; [congruence | tauto].
      * tauto.
Qed.

Lemma set_absent k v o : JS.get k o = None -> JS.set k v o = (o ++ [(k, v)])%list.
Proof.
  induction o as [|[k' v'] r IH]; simpl; auto.
  destruct (String.eqb k k'); [discriminate|].
  intros H. now rewrite IH.
Qed.

Lemma keys_set_present k v o :
  JS.get k o <> None -> JS.keys (JS.set k v o) = JS.keys o.
Proof.
  unfold JS.keys. induction o as [|[k' v'] r IH]; simpl; [congruence|].
  destruct (String.eqb k k'); simpl; auto.
  intros H. now rewrite IH.
Qed.

Lemma get_forEach_value (f : V -> V) k o :
  JS.get k (JS.forEach_value f o) = option_map f (JS.get k o).
Proof.
  induction o as [|[k' v'] r IH]; simpl; auto.
  destruct (String.eqb k k'); auto.
Qed.

Lemma keys_forEach_value (f : V -> V) o :
  JS.keys (JS.forEach_value f o) = JS.keys o.
Proof.
  unfold JS.keys, JS.forEach_value. rewrite map_map. reflexivity.
Qed.

End ObjectFacts.

(** ** The media heuristic *)

Lemma split_no_separator (sep : ascii) (s : string) :
  ~ In sep (list_ascii_of_string s) -> JS.split sep s = [s].
Proof.
  induction s as [|c r IH]; simpl; intros H; [reflexivity|].
  destruct (Ascii.eqb c sep) eqn:E.
  - apply Ascii.eqb_eq in E. tauto.
  - rewrite IH by tauto. reflexivity.
Qed.

(** C10. A photo whose data string holds no comma has the empty payload
    ([split(',')[1]] is undefined), a computed size of 0 bytes, and is
    rejected with reason 'Image too small', however long the string is. *)
Theorem photo_without_comma_rejected (data : string) :
  ~ In comma (list_ascii_of_string data) ->
  payload data = ""
  /\ sizeBytes data = 0
  /\ verifyMediaHeuristic (Some (mkMedia photo data))
     = (false, Some "Image too small").
Proof.
  intros H.
  assert (Hp : payload data = "").
  { unfold payload. now rewrite (split_no_separator _ _ H). }
  assert (Hs : sizeBytes data = 0).
  { unfold sizeBytes. now rewrite Hp. }
  repeat split; auto.
  unfold verifyMediaHeuristic. simpl. now rewrite Hs.
Qed.

Lemma photo_without_comma_rejected_witness :
  ~ In comma (list_ascii_of_string placeholder_url)
  /\ verifyMediaHeuristic (Some (mkMedia photo placeholder_url))
     = (false, Some "Image too small").
Proof.
  assert (H : ~ In comma (list_ascii_of_string placeholder_url)).
  { cbv. intros H. repeat (destruct H as [H|H]; [discriminate H|]). exact H. }
  split; [exact H|].
  exact (proj2 (proj2 (photo_without_comma_rejected placeholder_url H))).
Defined.

(** ** Issue creation *)

Lemma post_issues_created now tok b st d p :
  JS.startsWith tok "dev-" = true ->
  b_description b = Some d -> JS.truthy (Some d) = true ->
  b_priority b = Some p ->
  post_issues now (Some tok) b st =
  let issue :=
    mkIssue (JS.toString36 now) (JS.slice 4 tok) (default (b_category b) "Other")
            d p (b_department b) (Boolean (b_emergency b))
            (initial_status (b_media b))
            (b_location b) (b_media b) (b_voice b) now now in
  (IssueJson issue,
   mkState (users st) (JS.set (JS.toString36 now) issue (issues st))
           (object_prototype st)).
Proof.
  intros Htok Hd Hdt Hp. unfold post_issues, resolve.
  assert (Ht : JS.truthy (Some tok) = true).
  { destruct tok; [discriminate Htok | reflexivity]. }
  rewrite Ht, Htok, Hd, Hp, Hdt. reflexivity.
Qed.

Lemma post_issues_inv now token b st issue :
  fst (post_issues now token b st) = IssueJson issue ->
  id issue = JS.toString36 now
  /\ createdAt issue = now /\ updatedAt issue = now
  /\ snd (post_issues now token b st)
     = mkState (users st) (JS.set (JS.toString36 now) issue (issues st))
               (object_prototype st).
Proof.
  unfold post_issues.
  destruct (resolve token) as [uid|]; [|discriminate].
  destruct (b_description b) as [d|]; [|discriminate].
  destruct (b_priority b) as [p|]; [|discriminate].
  destruct (negb (JS.truthy (Some d))); [discriminate|].
  cbn [fst snd]. intros [= <-]. repeat split.
Qed.

(** C1. A creation request with a valid token, a description and a priority
    stores an issue whose status is Spam when there is no media, Spam when
    the media is a photo with a computed size below 10,000 bytes, and
    Reported when media is present and either its size is at least 10,000
    bytes or it is not a photo. *)
Theorem creation_status_follows_media_check now tok b st :
  JS.startsWith tok "dev-" = true ->
  JS.truthy (b_description b) = true ->
  is_some (b_priority b) = true ->
  exists issue,
    fst (post_issues now (Some tok) b st) = IssueJson issue
    /\ JS.get (id issue) (issues (snd (post_issues now (Some tok) b st)))
       = Some issue
    /\ (b_media b = None -> status issue = Spam)
    /\ (forall m, b_media b = Some m -> m_type m = photo ->
                  sizeBytes (m_data m) < 10000 -> status issue = Spam)
    /\ (forall m, b_media b = Some m ->
                  10000 <= sizeBytes (m_data m) \/ m_type m <> photo ->
                  status issue = Reported).
Proof.
  intros Htok Hd Hp.
  destruct (b_description b) as [d|] eqn:Ed; [|discriminate Hd].
  destruct (b_priority b) as [p|] eqn:Ep; [|discriminate Hp].
  rewrite (post_issues_created now tok b st d p Htok Ed Hd Ep).
  eexists. cbn [fst snd issues id status].
  split; [reflexivity|]. split; [apply get_set_same|].
  unfold initial_status, verifyMediaHeuristic.
  split; [|split].
  - intros ->. reflexivity.
  - intros m -> Hph Hsz. rewrite Hph. simpl.
    apply Z.ltb_lt in Hsz. now rewrite Hsz.
  - intros m -> [Hsz|Hph].
    + apply Z.ltb_ge in Hsz. rewrite Hsz, andb_false_r. reflexivity.
    + destruct (m_type m); try reflexivity. congruence.
Qed.

Lemma creation_status_follows_media_check_witness :
  exists issue,
    fst (post_issues 1700000000000 (Some "dev-loyv9qp8") sample_body initial_state)
    = IssueJson issue
    /\ status issue = Spam.
Proof.
  destruct (creation_status_follows_media_check 1700000000000 "dev-loyv9qp8"
              sample_body initial_state eq_refl eq_refl eq_refl)
    as (issue & Hr & _ & Hnone & _).
  exists issue. split; [exact Hr | exact (Hnone eq_refl)].
Defined.

(** ** Enumeration order and listing *)

Section EnumerationFacts.
Context {V : Type}.
Implicit Types (o : JS.Obj V) (l : list (N * V)).

Lemma insert_by_index_perm (e : N * V) l :
  Permutation (JS.insert_by_index e l) (e :: l).
Proof.
  induction l as [|e' r IH]; simpl; auto.
  destruct (fst e <=? fst e')%N; auto.
  rewrite IH. apply perm_swap.
Qed.

Lemma sort_by_index_perm l : Permutation (JS.sort_by_index l) l.
Proof.
  induction l as [|e r IH]; simpl; auto.
  rewrite insert_by_index_perm. now constructor.
Qed.

Lemma Object_values_perm o : Permutation (JS.Object_values o) (map snd o).
Proof.
  unfold JS.Object_values. induction o as [|[k v] r IH]; cbn [JS.indexed JS.named map]; auto.
  destruct (JS.array_index k) as [n|]; cbn [JS.sort_by_index snd].
  - apply Permutation_trans
      with (map snd ((n, v) :: JS.sort_by_index (JS.indexed r)) ++ JS.named r)%list.
    + apply Permutation_app_tail, Permutation_map, insert_by_index_perm.
    + simpl. now constructor.
  - symmetry. apply Permutation_cons_app. now symmetry.
Qed.

Lemma indexed_nil_named o :
  (forall k, In k (JS.keys o) -> JS.array_index k = None) ->
  JS.indexed o = [] /\ JS.named o = map snd o.
Proof.
  unfold JS.keys. induction o as [|[k v] r IH]; simpl; auto.
  intros H. rewrite (H k) by auto.
  destruct IH as [IH1 IH2]; auto. now rewrite IH2.
Qed.

Lemma Object_values_named o :
  (forall k, In k (JS.keys o) -> JS.array_index k = None) ->
  JS.Object_values o = map snd o.
Proof.
  intros H. unfold JS.Object_values.
  destruct (indexed_nil_named o H) as [-> ->]. reflexivity.
Qed.

Lemma indexed_new_key o k v :
  JS.get k o = None -> JS.array_index k = None ->
  JS.indexed (o ++ [(k, v)])%list = JS.indexed o.
Proof.
  intros Hk Ha. induction o as [|[k' v'] r IH]; simpl.
  - now rewrite Ha.
  - simpl in Hk. destruct (String.eqb k k'); [discriminate|].
    rewrite IH by assumption. reflexivity.
Qed.

Lemma named_new_key o k v :
  JS.get k o = None -> JS.array_index k = None ->
  JS.named (o ++ [(k, v)])%list = (JS.named o ++ [v])%list.
Proof.
  intros Hk Ha. induction o as [|[k' v'] r IH]; simpl.
  - now rewrite Ha.
  - simpl in Hk. destruct (String.eqb k k'); [discriminate|].
    rewrite IH by assumption. destruct (JS.array_index k'); reflexivity.
Qed.

Lemma Object_values_new_key o k v :
  JS.get k o = None -> JS.array_index k = None ->
  JS.Object_values (JS.set k v o) = (JS.Object_values o ++ [v])%list.
Proof.
  intros Hk Ha. rewrite (set_absent _ _ _ Hk). unfold JS.Object_values.
  rewrite indexed_new_key, named_new_key by assumption.
  now rewrite app_assoc.
Qed.

End EnumerationFacts.

Lemma get_issues_no_filters (Number : string -> JS.Num) (st : State) :
  get_issues Number no_filters st = IssueList (JS.Object_values (issues st)).
Proof. reflexivity. Qed.

(** C2, as the code has it.  Listing with no filter returns every stored
    issue, each once, in the enumeration order of the store and not re-sorted:
    for identifiers that are not array indices this is creation order, the
    oldest first, and an issue created under a new such identifier is listed
    last. *)
Theorem list_all_in_creation_order (Number : string -> JS.Num) (st : State) :
  get_issues Number no_filters st = IssueList (JS.Object_values (issues st))
  /\ Permutation (JS.Object_values (issues st)) (map snd (issues st))
  /\ ((forall k, In k (JS.keys (issues st)) -> JS.array_index k = None) ->
      JS.Object_values (issues st) = map snd (issues st))
  /\ (forall now token b issue,
        fst (post_issues now token b st) = IssueJson issue ->
        JS.get (id issue) (issues st) = None ->
        JS.array_index (id issue) = None ->
        get_issues Number no_filters (snd (post_issues now token b st))
        = IssueList (JS.Object_values (issues st) ++ [issue])).
Proof.
  split; [reflexivity|]. split; [apply Object_values_perm|].
  split; [apply Object_values_named|].
  intros now token b issue Hr Hnew Hidx.
  rewrite get_issues_no_filters. f_equal.
  destruct (post_issues_inv _ _ _ _ _ Hr) as (Hid & _ & _ & ->).
  cbn [issues]. rewrite Hid in *. now apply Object_values_new_key.
Qed.

(** C2 as stated fails: the issue created first is listed first. *)
Lemma list_is_oldest_first :
  exists older newer,
    get_issues (fun _ => JS.NaN) no_filters two_issues = IssueList [older; newer]
    /\ createdAt older = 1700000000000
    /\ createdAt newer = 1700000000001
    /\ ~ most_recent_first [older; newer].
Proof.
  do 2 eexists. split; [vm_compute; reflexivity|].
  split; [reflexivity|]. split; [reflexivity|].
  intros H. inversion H as [|a l Hs Hh]; subst.
  inversion Hh as [|b l' Hle]; subst. simpl in Hle. lia.
Qed.

Lemma list_all_in_creation_order_witness :
  exists first second,
    JS.Object_values (issues two_issues) = [first; second]
    /\ createdAt first < createdAt second
    /\ get_issues (fun _ => JS.NaN) no_filters two_issues
       = IssueList [first; second].
Proof.
  pose proof (list_all_in_creation_order (fun _ => JS.NaN)
                (snd (post_issues 1700000000000 (Some "dev-loyv9qp8")
                        (photo_body "pothole" High) initial_state)))
    as (_ & _ & _ & Hnew).
  specialize (Hnew 1700000000001 (Some "dev-loyv9qp8") (photo_body "garbage" Low)
                _ eq_refl eq_refl eq_refl).
  do 2 eexists. split; [vm_compute; reflexivity|].
  split; [simpl; lia|]. exact Hnew.
Defined.

(** ** Status updates and the escalation timer *)

Lemma patch_issues_own now k b st existing :
  JS.get k (issues st) = Some existing ->
  patch_issues now k b st =
  (IssueJson (patch_issue now b existing),
   mkState (users st) (JS.set k (patch_issue now b existing) (issues st))
           (object_prototype st)).
Proof. intros H. unfold patch_issues. now rewrite H. Qed.

Lemma patch_issues_other_key now k k' b st :
  k' <> k ->
  JS.get k (issues (snd (patch_issues now k' b st))) = JS.get k (issues st).
Proof.
  intros Hne. unfold patch_issues.
  destruct (JS.get k' (issues st)) as [i|] eqn:E; simpl.
  - now apply get_set_other.
  - destruct (inherited k' (object_prototype st)) as [| |[|]|]; reflexivity.
Qed.

Lemma escalate_resolved now issue :
  status issue = Resolved -> escalate now issue = issue.
Proof. intros H. unfold escalate, is_stale. now rewrite H. Qed.

Lemma status_eqb_spec (a b : IssueStatus) : status_eqb a b = true <-> a = b.
Proof. destruct a, b; simpl; split; intros H; try reflexivity; discriminate H. Qed.

Lemma is_stale_true now issue :
  status issue <> Resolved ->
  7 * 24 * 60 * 60 * 1000 < now - createdAt issue ->
  is_stale now issue = true.
Proof.
  intros Hs Hage. unfold is_stale.
  destruct (status_eqb (status issue) Resolved) eqn:E.
  - apply status_eqb_spec in E. contradiction.
  - apply Z.ltb_lt in Hage. exact Hage.
Qed.

(** C3, as the code has it.  An issue whose status is Resolved keeps it
    through every escalation tick, through every status update addressed to
    another identifier, and through a status update of its own that carries
    no status; an update that carries a status overwrites Resolved like any
    other status. *)
Theorem resolved_left_only_by_explicit_update now k b st issue :
  JS.get k (issues st) = Some issue ->
  status issue = Resolved ->
  JS.get k (issues (tick now st)) = Some issue
  /\ (forall k', k' <> k ->
        JS.get k (issues (snd (patch_issues now k' b st))) = Some issue)
  /\ exists issue',
       JS.get k (issues (snd (patch_issues now k b st))) = Some issue'
       /\ status issue' = default (p_status b) Resolved.
Proof.
  intros Hget Hres. split; [|split].
  - simpl. rewrite get_forEach_value, Hget. simpl.
    now rewrite escalate_resolved.
  - intros k' Hne. now rewrite patch_issues_other_key.
  - rewrite (patch_issues_own now k b st issue Hget). simpl.
    eexists. split; [apply get_set_same|]. simpl. now rewrite Hres.
Qed.

Lemma resolved_left_only_by_explicit_update_witness :
  exists issue,
    JS.get pothole_id (issues resolved_pothole) = Some issue
    /\ status issue = Resolved
    /\ JS.get pothole_id (issues (tick 1800000000000 resolved_pothole)) = Some issue.
Proof.
  eexists. split; [vm_compute; reflexivity|]. split; [reflexivity|].
  refine (proj1 (resolved_left_only_by_explicit_update 1800000000000 pothole_id
                   (mkPatchBody None None None) resolved_pothole _ _ _)).
  - vm_compute. reflexivity.
  - reflexivity.
Defined.

(** C3 as stated fails: a status update moves a Resolved issue back to
    Reported. *)
Lemma resolved_reopened_by_patch :
  exists before after,
    JS.get pothole_id (issues resolved_pothole) = Some before
    /\ status before = Resolved
    /\ JS.get pothole_id
         (issues (snd (patch_issues 1700000720000 pothole_id
                         (mkPatchBody (Some Reported) None None) resolved_pothole)))
       = Some after
    /\ status after = Reported.
Proof.
  do 2 eexists. split; [vm_compute; reflexivity|].
  split; [reflexivity|]. split; [vm_compute; reflexivity|]. reflexivity.
Qed.

(** C4. On a tick, an issue that is not Resolved and is older than 7 days
    becomes Assigned with [updatedAt] set to the tick's clock value; its
    department becomes 'Commissioner' when it had none (absent or the empty
    string) and is kept otherwise; nothing else of it changes.  Every other
    issue, and the set of stored identifiers, is left as it was. *)
Theorem tick_escalates_stale_issues now st k issue :
  JS.get k (issues st) = Some issue ->
  (status issue <> Resolved ->
   7 * 24 * 60 * 60 * 1000 < now - createdAt issue ->
   exists issue',
     JS.get k (issues (tick now st)) = Some issue'
     /\ status issue' = Assigned
     /\ updatedAt issue' = now
     /\ (department issue = None -> department issue' = Some "Commissioner")
     /\ (department issue = Some "" -> department issue' = Some "Commissioner")
     /\ (forall d, department issue = Some d -> d <> "" ->
                   department issue' = Some d)
     /\ (id issue', userId issue', category issue', description issue',
         priority issue', emergency issue', location issue', media issue',
         voice issue', createdAt issue')
        = (id issue, userId issue, category issue, description issue,
           priority issue, emergency issue, location issue, media issue,
           voice issue, createdAt issue))
  /\ (status issue = Resolved \/ now - createdAt issue <= 7 * 24 * 60 * 60 * 1000 ->
      JS.get k (issues (tick now st)) = Some issue)
  /\ JS.keys (issues (tick now st)) = JS.keys (issues st)
  /\ users (tick now st) = users st.
Proof.
  intros Hget. simpl. rewrite get_forEach_value, Hget, keys_forEach_value. simpl.
  split; [|split; [|split; reflexivity]].
  - intros Hst Hage. unfold escalate.
    rewrite (is_stale_true now issue Hst Hage).
    eexists. split; [reflexivity|]. simpl.
    repeat split.
    + now intros ->.
    + now intros ->.
    + intros d -> Hd. destruct d; [contradiction|reflexivity].
  - intros [Hres|Hage].
    + now rewrite escalate_resolved.
    + unfold escalate, is_stale. change oneWeekMs with 604800000.
      change (7 * 24 * 60 * 60 * 1000) with 604800000 in Hage.
      apply Z.ltb_ge in Hage. rewrite Hage, andb_false_r. reflexivity.
Qed.

Lemma tick_escalates_stale_issues_witness :
  exists issue issue',
    JS.get pothole_id (issues reported_pothole) = Some issue
    /\ status issue = Reported
    /\ JS.get pothole_id
         (issues (tick (1700000000000 + 7 * 24 * 60 * 60 * 1000 + 1) reported_pothole))
       = Some issue'
    /\ status issue' = Assigned
    /\ department issue' = Some "Commissioner".
Proof.
  assert (Hget : JS.get pothole_id (issues reported_pothole)
                 = Some (mkIssue pothole_id "loyv9qp8" "Other" "pothole" High None
                                 false Reported None (Some clip) None
                                 1700000000000 1700000000000)).
  { vm_compute. reflexivity. }
  destruct (proj1 (tick_escalates_stale_issues
                     (1700000000000 + 7 * 24 * 60 * 60 * 1000 + 1)
                     reported_pothole pothole_id _ Hget))
    as (issue' & Hg & Hs & _ & Hd & _).
  - discriminate.
  - simpl. lia.
  - do 2 eexists. split; [exact Hget|]. split; [reflexivity|].
    split; [exact Hg|]. split; [exact Hs | exact (Hd eq_refl)].
Defined.

(** ** Well-formed tables *)

Section TableFacts.
Context {V : Type}.
Implicit Types (o : JS.Obj V).

Lemma keys_set o k v :
  JS.keys (JS.set k v o)
  = match JS.get k o with
    | Some _ => JS.keys o
    | None => (JS.keys o ++ [k])%list
    end.
Proof.
  unfold JS.keys. induction o as [|[k' v'] r IH]; simpl; auto.
  destruct (String.eqb k k'); simpl; auto.
  rewrite IH. destruct (JS.get k r); reflexivity.
Qed.

Lemma NoDup_keys_set o k v :
  NoDup (JS.keys o) -> NoDup (JS.keys (JS.set k v o)).
Proof.
  intros H. rewrite keys_set. destruct (JS.get k o) eqn:E; auto.
  apply get_None_keys in E.
  apply NoDup_rev in H. rewrite <- (rev_involutive (_ ++ _)%list).
  apply NoDup_rev. rewrite rev_app_distr. simpl.
  constructor; auto. now rewrite <- in_rev.
Qed.

Lemma In_get o k v :
  NoDup (JS.keys o) -> In (k, v) o -> JS.get k o = Some v.
Proof.
  unfold JS.keys. induction o as [|[k' v'] r IH]; simpl; [tauto|].
  intros Hnd [Heq|Hin].
  - injection Heq as -> ->. now rewrite String.eqb_refl.
  - inversion Hnd as [|? ? Hk Hr]; subst.
    destruct (String.eqb k k') eqn:E.
    + apply String.eqb_eq in E. subst k'. exfalso. apply Hk.
      change k with (fst (k, v)). now apply in_map.
    + auto.
Qed.

Lemma find_some (p : V -> bool) (l : list V) x :
  JS.find p l = Some x -> In x l /\ p x = true.
Proof.
  induction l as [|y r IH]; simpl; [discriminate|].
  destruct (p y) eqn:E.
  - intros [= ->]. auto.
  - intros H. destruct (IH H). auto.
Qed.

Lemma find_exists (p : V -> bool) (l : list V) x :
  In x l -> p x = true -> exists y, JS.find p l = Some y.
Proof.
  induction l as [|y r IH]; simpl; [tauto|].
  intros [->|Hin] Hp.
  - rewrite Hp. eauto.
  - destruct (p y); eauto.
Qed.

Lemma In_Object_values o v :
  In v (JS.Object_values o) <-> exists k, In (k, v) o.
Proof.
  split.
  - intros H. apply (Permutation_in _ (Object_values_perm o)) in H.
    apply in_map_iff in H. destruct H as ([k v'] & Hv & Hin).
    simpl in Hv. subst. eauto.
  - intros [k H]. apply (Permutation_in _ (Permutation_sym (Object_values_perm o))).
    change v with (snd (k, v)). now apply in_map.
Qed.

End TableFacts.

Lemma handle_users_NoDup now e st :
  NoDup (JS.keys (users st)) -> NoDup (JS.keys (users (handle now e st))).
Proof.
  intros H. destruct e as [b|token b|k b|]; simpl; auto.
  - unfold signup. destruct (s_password b), (s_role b); auto.
    destruct (_ || _); simpl; auto. now apply NoDup_keys_set.
  - unfold post_issues. destruct (resolve token); auto.
    destruct (b_description b), (b_priority b); auto.
    destruct (negb _); auto.
  - unfold patch_issues. destruct (JS.get k (issues st)); auto.
    destruct (inherited k (object_prototype st)) as [| |[|]|]; auto.
Qed.

Lemma reachable_users_NoDup st : reachable st -> NoDup (JS.keys (users st)).
Proof.
  induction 1 as [|now e st _ IH].
  - constructor.
  - now apply handle_users_NoDup.
Qed.

(** ** Signup, login and tokens *)

Lemma resolve_token_of (uid : string) : resolve (Some (token_of uid)) = Some uid.
Proof. unfold resolve, token_of. simpl. reflexivity. Qed.

Lemma signup_accepted now b st tok v :
  fst (signup now b st) = TokenUser tok v ->
  exists pw r,
    s_password b = Some pw /\ s_role b = Some r
    /\ (JS.truthy (s_email b) = true \/ JS.truthy (s_aadhaar b) = true)
    /\ tok = token_of (JS.toString36 now)
    /\ v = mkUserView (JS.toString36 now) r (s_email b) (s_aadhaar b) (s_language b)
    /\ users (snd (signup now b st))
       = JS.set (JS.toString36 now)
                (mkUser (JS.toString36 now) (s_email b) (s_aadhaar b) pw r
                        (s_language b))
                (users st).
Proof.
  unfold signup.
  destruct (s_password b) as [pw|]; [|discriminate].
  destruct (s_role b) as [r|]; [|discriminate].
  destruct (JS.truthy (s_email b)) eqn:Ee, (JS.truthy (s_aadhaar b)) eqn:Ea,
           (JS.truthy (Some pw)); simpl; try discriminate;
    intros [= <- <-]; exists pw, r; auto 10.
Qed.

Lemma field_is_same (s : string) : field_is (Some s) s = true.
Proof. simpl. apply String.eqb_refl. Qed.

(** C5, as the code has it.  After a valid signup, a login with the same
    identifier and password succeeds and returns the token of a stored user
    with these credentials, the first in the enumeration of the table.  It
    is the token signup returned, resolving to the identifier signup
    returned, whenever no user stored under another identifier has the same
    identifier and password. *)
Theorem login_after_signup now b st identifier pw tok v :
  reachable st ->
  fst (signup now b st) = TokenUser tok v ->
  s_email b = Some identifier \/ s_aadhaar b = Some identifier ->
  s_password b = Some pw ->
  (exists u,
      In u (JS.Object_values (users (snd (signup now b st))))
      /\ credentials_match identifier pw u = true
      /\ login identifier pw (snd (signup now b st))
         = TokenUser (token_of (u_id u)) (view u)
      /\ resolve (Some (token_of (u_id u))) = Some (u_id u))
  /\ ((forall k u, JS.get k (users st) = Some u -> k <> v_id v ->
                   credentials_match identifier pw u = false) ->
      login identifier pw (snd (signup now b st)) = TokenUser tok v
      /\ resolve (Some tok) = Some (v_id v)).
Proof.
  intros Hreach Hok Hid Hpw.
  destruct (signup_accepted _ _ _ _ _ Hok)
    as (pw' & r & Hpw' & Hr & Htruthy & -> & -> & Husers).
  rewrite Hpw in Hpw'. injection Hpw' as <-.
  set (uid := JS.toString36 now) in *.
  set (user := mkUser uid (s_email b) (s_aadhaar b) pw r (s_language b)) in *.
  assert (Hmatch : credentials_match identifier pw user = true).
  { unfold credentials_match. simpl. rewrite String.eqb_refl, andb_true_r.
    destruct Hid as [-> | ->]; rewrite field_is_same; auto using orb_true_r. }
  assert (Hin : In user (JS.Object_values (users (snd (signup now b st))))).
  { rewrite Husers. apply In_Object_values. exists uid.
    apply get_In, get_set_same. }
  destruct (find_exists _ _ _ Hin Hmatch) as [found Hfound].
  destruct (find_some _ _ _ Hfound) as [Hfin Hfm].
  split.
  - exists found. unfold login. rewrite Hfound.
    repeat split; auto using resolve_token_of.
  - intros Hothers. split; [|apply resolve_token_of].
    assert (found = user) as ->.
    { rewrite Husers in Hfin. apply In_Object_values in Hfin.
      destruct Hfin as [k Hk].
      apply In_get in Hk;
        [|apply NoDup_keys_set, reachable_users_NoDup, Hreach].
      destruct (String.eqb uid k) eqn:E.
      - apply String.eqb_eq in E. subst k.
        rewrite get_set_same in Hk. congruence.
      - apply String.eqb_neq in E.
        rewrite get_set_other in Hk by assumption.
        rewrite (Hothers k found Hk) in Hfm by (simpl; congruence).
        discriminate. }
    unfold login. rewrite Hfound. reflexivity.
Qed.

Lemma login_after_signup_witness :
  exists tok v,
    fst (signup 1700000000000 asha initial_state) = TokenUser tok v
    /\ login "asha@example.org" "s3cret" (snd (signup 1700000000000 asha initial_state))
       = TokenUser tok v
    /\ resolve (Some tok) = Some (v_id v).
Proof.
  do 2 eexists. split; [reflexivity|].
  refine (proj2 (login_after_signup 1700000000000 asha initial_state
                   "asha@example.org" "s3cret" _ _ reach_start eq_refl
                   (or_introl eq_refl) eq_refl) _).
  intros k u H. discriminate H.
Defined.

(** C5 as stated fails: the login after the second signup returns the
    token of the first account. *)
Lemma login_returns_first_account :
  exists tok v tok' v',
    fst registered_twice = TokenUser tok v
    /\ login "asha@example.org" "s3cret" (snd registered_twice) = TokenUser tok' v'
    /\ resolve (Some tok) = Some (v_id v)
    /\ resolve (Some tok') <> Some (v_id v).
Proof.
  do 4 eexists. split; [vm_compute; reflexivity|].
  split; [vm_compute; reflexivity|]. split; [reflexivity|].
  vm_compute. discriminate.
Qed.

Lemma resolve_None (token : option string) :
  resolve token = None <->
  token = None \/ exists tok, token = Some tok /\ JS.startsWith tok "dev-" = false.
Proof.
  unfold resolve. destruct token as [tok|]; [|tauto].
  destruct (JS.startsWith tok "dev-") eqn:E.
  - assert (Ht : JS.truthy (Some tok) = true).
    { destruct tok; [discriminate E | reflexivity]. }
    rewrite Ht. cbn [negb orb]. split; [discriminate|].
    intros [H|(tok' & Heq & H)]; [discriminate H|].
    injection Heq as <-. congruence.
  - rewrite orb_true_r. split; eauto.
Qed.

Lemma resolve_Some (token : option string) (uid : string) :
  resolve token = Some uid ->
  exists tok, token = Some tok /\ JS.startsWith tok "dev-" = true
              /\ uid = JS.slice 4 tok.
Proof.
  unfold resolve. destruct token as [tok|]; [|discriminate].
  destruct (JS.startsWith tok "dev-") eqn:E; [|now rewrite orb_true_r].
  destruct (negb (JS.truthy (Some tok))); cbn [negb orb]; [discriminate|].
  intros [= <-]. exists tok. repeat split. exact E.
Qed.

(** C6, as the code has it.  Creation answers 401 exactly when the token
    header is missing or does not start with 'dev-'.  Otherwise the users
    table is not consulted: the answer does not depend on it, it is left as
    it was, and a created issue carries as [userId] the token without its
    first four characters, whether or not a user has that identifier. *)
Theorem token_checked_by_prefix_only now token b st :
  (fst (post_issues now token b st) = Error 401 "Unauthorized" <->
   token = None \/ exists tok, token = Some tok /\ JS.startsWith tok "dev-" = false)
  /\ (forall issue,
        fst (post_issues now token b st) = IssueJson issue ->
        exists tok, token = Some tok /\ JS.startsWith tok "dev-" = true
                    /\ userId issue = JS.slice 4 tok)
  /\ (forall others,
        fst (post_issues now token b (mkState others (issues st) (object_prototype st)))
        = fst (post_issues now token b st))
  /\ users (snd (post_issues now token b st)) = users st.
Proof.
  rewrite <- resolve_None. unfold post_issues. cbn [issues users object_prototype].
  destruct (resolve token) as [uid|] eqn:E.
  - destruct (resolve_Some _ _ E) as (tok & -> & Hs & ->).
    destruct (b_description b) as [d|]; [destruct (b_priority b) as [p|]|];
      [destruct (negb (JS.truthy (Some d)))| |]; cbn [fst snd users];
      (split; [split; discriminate|]);
      (split; [|split; reflexivity]);
      intros issue H; try discriminate H.
    injection H as <-. exists tok. repeat split. exact Hs.
  - cbn [fst snd]. split; [split; reflexivity|].
    split; [intros issue H; discriminate H|]. split; reflexivity.
Qed.

(** C6 as stated fails: with no user registered at all, a token that names
    no user is accepted and the issue is stored under that name. *)
Lemma unknown_token_accepted :
  users initial_state = []
  /\ exists issue,
       fst (post_issues 1700000000000 (Some "dev-nobody") sample_body initial_state)
       = IssueJson issue
       /\ userId issue = "nobody"
       /\ JS.get (id issue)
            (issues (snd (post_issues 1700000000000 (Some "dev-nobody")
                            sample_body initial_state)))
          = Some issue.
Proof.
  split; [reflexivity|]. eexists. split; [vm_compute; reflexivity|].
  split; [reflexivity|]. vm_compute. reflexivity.
Qed.

(** ** Unknown identifiers in a status update *)

Lemma inherited_Undefined k p :
  k <> "__proto__" -> mem k Object_prototype_methods = false ->
  ~ In k ["status"; "department"; "priority"; "updatedAt"] ->
  inherited k p = Undefined.
Proof.
  intros H1 H2 H3. unfold inherited.
  apply String.eqb_neq in H1. rewrite H1, H2.
  assert (forall s, In s ["status"; "department"; "priority"; "updatedAt"] ->
                    String.eqb k s = false) as Hs.
  { intros s Hin. apply String.eqb_neq. intros ->. contradiction. }
  rewrite !Hs by (simpl; auto). reflexivity.
Qed.

(** A status update for an identifier that is neither stored nor the name
    of anything on [Object.prototype] answers 404 and changes nothing. *)
Lemma patch_unknown_id_not_found now k b st :
  JS.get k (issues st) = None ->
  k <> "__proto__" -> mem k Object_prototype_methods = false ->
  ~ In k ["status"; "department"; "priority"; "updatedAt"] ->
  patch_issues now k b st = (Error 404 "Issue not found", st).
Proof.
  intros Hk H1 H2 H3. unfold patch_issues.
  now rewrite Hk, inherited_Undefined.
Qed.

(** No status update ever adds a record to the issue table. *)
Lemma patch_issues_keys now k b st :
  JS.keys (issues (snd (patch_issues now k b st))) = JS.keys (issues st).
Proof.
  unfold patch_issues. destruct (JS.get k (issues st)) eqn:E; simpl.
  - rewrite keys_set, E. reflexivity.
  - destruct (inherited k (object_prototype st)) as [| |[|]|]; reflexivity.
Qed.

(** C7 at its failing input.  On the freshly started server no issue is
    stored, yet a status update addressed to 'constructor' is not answered
    404: the read [issues[id]] finds the inherited [Object] function, which
    is truthy, and the handler goes on to answer as for a found issue.  The
    table itself stays empty. *)
Theorem patch_constructor_not_rejected now b :
  JS.get "constructor" (issues initial_state) = None
  /\ fst (patch_issues now "constructor" b initial_state) = OtherJson
  /\ fst (patch_issues now "constructor" b initial_state)
     <> Error 404 "Issue not found"
  /\ issues (snd (patch_issues now "constructor" b initial_state)) = [].
Proof. repeat split. discriminate. Qed.

(** ** Identifiers of created issues *)

(** C9 at its failing input.  Two creations that read the same clock value
    get the same identifier, and the second replaces the record of the
    first: one record is left, and it is the second. *)
Theorem same_millisecond_creation_overwrites now token b token' b' st first second :
  fst (post_issues now token b st) = IssueJson first ->
  fst (post_issues now token' b' (snd (post_issues now token b st)))
  = IssueJson second ->
  id second = id first
  /\ JS.get (id first) (issues (snd (post_issues now token b st))) = Some first
  /\ JS.get (id first)
       (issues (snd (post_issues now token' b'
                       (snd (post_issues now token b st)))))
     = Some second
  /\ JS.keys (issues (snd (post_issues now token' b'
                             (snd (post_issues now token b st)))))
     = JS.keys (issues (snd (post_issues now token b st))).
Proof.
  intros H1 H2.
  destruct (post_issues_inv _ _ _ _ _ H1) as (Hid1 & _ & _ & Hst1).
  destruct (post_issues_inv _ _ _ _ _ H2) as (Hid2 & _ & _ & Hst2).
  rewrite Hst2, Hst1. cbn [issues]. rewrite Hid1.
  split; [congruence|]. split; [apply get_set_same|].
  split; [apply get_set_same|].
  rewrite (keys_set (JS.set _ _ (issues st))), get_set_same. reflexivity.
Qed.

Lemma same_millisecond_creation_overwrites_witness :
  fst (post_issues 1700000000000 (Some "dev-loyv9qp8") (photo_body "pothole" High)
         initial_state) = IssueJson pothole_report
  /\ id garbage_report = id pothole_report
  /\ JS.get (id pothole_report)
       (issues (snd (post_issues 1700000000000 (Some "dev-loyvjfmw")
                       (photo_body "garbage" Low)
                       (snd (post_issues 1700000000000 (Some "dev-loyv9qp8")
                               (photo_body "pothole" High) initial_state)))))
     = Some garbage_report.
Proof.
  assert (H1 : fst (post_issues 1700000000000 (Some "dev-loyv9qp8")
                      (photo_body "pothole" High) initial_state)
               = IssueJson pothole_report) by reflexivity.
  assert (H2 : fst (post_issues 1700000000000 (Some "dev-loyvjfmw")
                      (photo_body "garbage" Low)
                      (snd (post_issues 1700000000000 (Some "dev-loyv9qp8")
                              (photo_body "pothole" High) initial_state)))
               = IssueJson garbage_report) by reflexivity.
  destruct (same_millisecond_creation_overwrites _ _ _ _ _ _ _ _ H1 H2)
    as (Hid & _ & Hget & _).
  split; [exact H1|]. split; [exact Hid | exact Hget].
Defined.

(** ** Timestamps *)

Lemma escalate_cases now issue :
  escalate now issue = issue
  \/ (updatedAt (escalate now issue) = now
      /\ createdAt (escalate now issue) = createdAt issue
      /\ id (escalate now issue) = id issue).
Proof.
  unfold escalate. destruct (is_stale now issue); [right|left]; auto.
Qed.

(** Every event keeps the stored identifiers, and leaves a stored issue
    either as it was, or stamped with the clock value the event read: the
    same issue updated, or a new one created under the same identifier. *)
Lemma handle_keeps now e st k issue :
  JS.get k (issues st) = Some issue ->
  exists issue',
    JS.get k (issues (handle now e st)) = Some issue'
    /\ (issue' = issue
        \/ (updatedAt issue' = now
            /\ ((createdAt issue' = createdAt issue /\ id issue' = id issue)
                \/ (createdAt issue' = now /\ id issue' = k
                    /\ k = JS.toString36 now)))).
Proof.
  intros Hget. destruct e as [b|token b|k' b|]; simpl.
  - unfold signup. destruct (s_password b), (s_role b); simpl; eauto.
    destruct (_ || _); simpl; eauto.
  - destruct (fst (post_issues now token b st)) eqn:Hr;
      try (unfold post_issues in *;
           destruct (resolve token); [|simpl; eauto];
           destruct (b_description b); [|simpl; eauto];
           destruct (b_priority b); [|simpl; eauto];
           destruct (negb _); simpl in *; [eauto | discriminate Hr]).
    destruct (post_issues_inv _ _ _ _ _ Hr) as (Hid & Hc & Hu & ->).
    cbn [issues]. destruct (String.eqb (JS.toString36 now) k) eqn:E.
    + apply String.eqb_eq in E. rewrite E, get_set_same.
      eexists. split; [reflexivity|]. right. split; [exact Hu|]. right.
      repeat split; congruence.
    + apply String.eqb_neq in E. rewrite get_set_other by assumption. eauto.
  - unfold patch_issues. destruct (JS.get k' (issues st)) as [existing|] eqn:E'.
    + cbn [snd issues]. destruct (String.eqb k' k) eqn:E.
      * apply String.eqb_eq in E. subst k'. rewrite get_set_same.
        assert (existing = issue) as -> by congruence.
        eexists. split; [reflexivity|]. right. simpl. auto.
      * apply String.eqb_neq in E. rewrite get_set_other by assumption. eauto.
    + destruct (inherited k' (object_prototype st)) as [| |[|]|]; simpl; eauto.
  - rewrite get_forEach_value, Hget. simpl. eexists. split; [reflexivity|].
    destruct (escalate_cases now issue) as [->|(H1 & H2 & H3)]; auto.
Qed.

(** An issue found after an event was there before, unchanged, or carries
    the event's clock value as [updatedAt]: it was created by the event, or
    it is the update of the issue stored under its identifier. *)
Lemma handle_origin now e st k issue' :
  JS.get k (issues (handle now e st)) = Some issue' ->
  JS.get k (issues st) = Some issue'
  \/ (updatedAt issue' = now
      /\ ((createdAt issue' = now /\ id issue' = k /\ k = JS.toString36 now)
          \/ exists issue, JS.get k (issues st) = Some issue
                           /\ createdAt issue' = createdAt issue
                           /\ id issue' = id issue)).
Proof.
  destruct (JS.get k (issues st)) as [issue|] eqn:Hget.
  - destruct (handle_keeps now e st k issue Hget) as (i & Hi & Hcases).
    rewrite Hi. intros [= <-].
    destruct Hcases as [->|[Hu [[Hc Hd]|Hc]]]; eauto 8.
  - destruct e as [b|token b|k' b|]; simpl.
    + unfold signup. destruct (s_password b), (s_role b); simpl; try congruence.
      destruct (_ || _); simpl; congruence.
    + destruct (fst (post_issues now token b st)) eqn:Hr;
        try (unfold post_issues in *;
             destruct (resolve token); [|simpl; congruence];
             destruct (b_description b); [|simpl; congruence];
             destruct (b_priority b); [|simpl; congruence];
             destruct (negb _); simpl in *; [congruence | discriminate Hr]).
      destruct (post_issues_inv _ _ _ _ _ Hr) as (Hid & Hc & Hu & ->).
      cbn [issues]. destruct (String.eqb (JS.toString36 now) k) eqn:E.
      * apply String.eqb_eq in E. rewrite E, get_set_same.
        intros [= <-]. right. split; [exact Hu|]. left.
        repeat split; congruence.
      * apply String.eqb_neq in E. rewrite get_set_other by assumption.
        congruence.
    + assert (JS.get k (issues (snd (patch_issues now k' b st))) = None) as ->;
        [|discriminate].
      destruct (String.eqb k' k) eqn:E.
      * apply String.eqb_eq in E. subst k'. unfold patch_issues.
        rewrite Hget.
        destruct (inherited k (object_prototype st)) as [| |[|]|]; exact Hget.
      * apply String.eqb_neq in E. now rewrite patch_issues_other_key.
    + rewrite get_forEach_value, Hget. discriminate.
Qed.

Lemma reachable_at_stamped t st : reachable_at t st -> stamped t st.
Proof.
  induction 1 as [t|t now e st _ IH Hle].
  - intros k issue H. discriminate H.
  - intros k issue' H.
    destruct (handle_origin _ _ _ _ _ H)
      as [Hold|[Hu [(Hc & _)|(issue & Hi & Hc & _)]]].
    + specialize (IH _ _ Hold). lia.
    + lia.
    + specialize (IH _ _ Hi). lia.
Qed.

(** C8.  When the clock never goes back, every stored issue has
    [createdAt <= updatedAt]; creation stamps both with the clock value it
    reads, a status update and an escalation stamp [updatedAt] with theirs;
    and no event makes the [updatedAt] of a stored issue smaller. *)
Theorem timestamps_ordered_and_monotone t st :
  reachable_at t st ->
  (forall k issue, JS.get k (issues st) = Some issue ->
                   createdAt issue <= updatedAt issue)
  /\ (forall now e k issue,
        t <= now -> JS.get k (issues st) = Some issue ->
        exists issue',
          JS.get k (issues (handle now e st)) = Some issue'
          /\ updatedAt issue <= updatedAt issue')
  /\ (forall now token b issue,
        fst (post_issues now token b st) = IssueJson issue ->
        createdAt issue = now /\ updatedAt issue = now
        /\ JS.get (id issue) (issues (snd (post_issues now token b st)))
           = Some issue)
  /\ (forall now k b issue,
        fst (patch_issues now k b st) = IssueJson issue ->
        updatedAt issue = now
        /\ JS.get k (issues (snd (patch_issues now k b st))) = Some issue)
  /\ (forall now k issue,
        JS.get k (issues st) = Some issue ->
        status issue <> Resolved ->
        7 * 24 * 60 * 60 * 1000 < now - createdAt issue ->
        exists issue',
          JS.get k (issues (tick now st)) = Some issue'
          /\ updatedAt issue' = now).
Proof.
  intros Hreach. pose proof (reachable_at_stamped _ _ Hreach) as Hst.
  split; [|split; [|split; [|split]]].
  - intros k issue H. specialize (Hst _ _ H). lia.
  - intros now e k issue Hle H.
    destruct (handle_keeps now e st k issue H) as (issue' & Hi & Hc).
    exists issue'. split; [exact Hi|]. specialize (Hst _ _ H).
    destruct Hc as [->|[Hu _]]; lia.
  - intros now token b issue H.
    destruct (post_issues_inv _ _ _ _ _ H) as (Hid & Hc & Hu & ->).
    repeat split; auto. cbn [issues]. rewrite Hid. apply get_set_same.
  - intros now k b issue H. unfold patch_issues in *.
    destruct (JS.get k (issues st)) as [existing|].
    + cbn [fst snd issues] in *. injection H as <-.
      split; [reflexivity | apply get_set_same].
    + destruct (inherited k (object_prototype st)) as [| |[|]|]; discriminate H.
  - intros now k issue H Hs Hage.
    cbn [tick issues]. rewrite get_forEach_value, H. cbn [option_map].
    unfold escalate. rewrite (is_stale_true now issue Hs Hage).
    eexists. split; reflexivity.
Qed.

Lemma reported_pothole_reachable : reachable_at 1700000000000 reported_pothole.
Proof.
  apply (at_step 0 1700000000000
           (PostIssues (Some "dev-loyv9qp8")
              (mkIssueBody (Some "pothole") None (Some High) None None
                           (Some clip) None None))
           initial_state (at_start 0)).
  lia.
Qed.

Lemma timestamps_ordered_and_monotone_witness :
  exists issue issue',
    JS.get pothole_id (issues reported_pothole) = Some issue
    /\ createdAt issue <= updatedAt issue
    /\ JS.get pothole_id
         (issues (handle 1700000360000
                    (PatchIssues pothole_id (mkPatchBody (Some Verified) None None))
                    reported_pothole))
       = Some issue'
    /\ updatedAt issue <= updatedAt issue'.
Proof.
  destruct (timestamps_ordered_and_monotone _ _ reported_pothole_reachable)
    as (Hord & Hmono & _).
  assert (Hget : JS.get pothole_id (issues reported_pothole)
                 = Some (mkIssue pothole_id "loyv9qp8" "Other" "pothole" High None
                                 false Reported None (Some clip) None
                                 1700000000000 1700000000000)).
  { vm_compute. reflexivity. }
  destruct (Hmono 1700000360000
              (PatchIssues pothole_id (mkPatchBody (Some Verified) None None))
              pothole_id _ ltac:(lia) Hget) as (issue' & Hi & Hle).
  eexists. exists issue'. split; [exact Hget|].
  split; [exact (Hord _ _ Hget)|]. split; [exact Hi | exact Hle].
Defined.

(** ** Identifiers are base-36 clock values *)

Lemma digit36_sound (d : N) :
  (d < 36)%N ->
  JS.undigit (JS.digit36 d) = d /\ JS.digit36 d <> "-"%char.
Proof.
  intros H. destruct d as [|p]; [split; [reflexivity|discriminate]|].
  do 6 (try destruct p as [p|p|]);
    try (split; [reflexivity|discriminate]); exfalso; lia.
Qed.

Lemma to_digits36_decode (fuel : nat) :
  forall n acc,
    (n < 36 ^ N.of_nat fuel)%N -> (0 < fuel)%nat ->
    exists k, forall a,
      JS.decode_from a (JS.to_digits36 fuel n acc)
      = JS.decode_from (a * 36 ^ k + n)%N acc.
Proof.
  induction fuel as [|f IH]; intros n acc Hn Hf; [lia|].
  cbn [JS.to_digits36].
  assert (Hmod : (n mod 36 < 36)%N) by (apply N.mod_lt; lia).
  pose proof (N.div_mod n 36 ltac:(lia)) as Hdm.
  destruct (n / 36 =? 0)%N eqn:E.
  - apply N.eqb_eq in E. exists 1%N. intros a. cbn [JS.decode_from].
    rewrite (proj1 (digit36_sound _ Hmod)). f_equal. lia.
  - apply N.eqb_neq in E.
    assert (Hf' : (0 < f)%nat).
    { destruct f; [|lia]. simpl in Hn. exfalso. apply E.
      apply N.div_small. lia. }
    assert (Hq : (n / 36 < 36 ^ N.of_nat f)%N).
    { apply N.Div0.div_lt_upper_bound.
      rewrite Nat2N.inj_succ, N.pow_succ_r' in Hn. exact Hn. }
    destruct (IH (n / 36)%N (String (JS.digit36 (n mod 36)) acc) Hq Hf')
      as [k Hk].
    exists (N.succ k). intros a. rewrite Hk. cbn [JS.decode_from].
    rewrite (proj1 (digit36_sound _ Hmod)). f_equal.
    rewrite N.pow_succ_r'. lia.
Qed.

Lemma N_toString36_decode (n : N) : JS.decode_from 0 (JS.N_toString36 n) = n.
Proof.
  unfold JS.N_toString36.
  destruct (to_digits36_decode (S (N.to_nat (N.log2 n))) n "") as [k Hk].
  - rewrite Nat2N.inj_succ, N2Nat.id.
    destruct n as [|p]; [reflexivity|].
    apply N.lt_le_trans with (2 ^ N.succ (N.log2 (N.pos p)))%N.
    + apply N.log2_spec. reflexivity.
    + apply N.pow_le_mono_l. lia.
  - lia.
  - rewrite Hk. simpl. reflexivity.
Qed.

Lemma to_digits36_head (fuel : nat) :
  forall n acc, (0 < fuel)%nat ->
    exists m r, (m < 36)%N /\ JS.to_digits36 fuel n acc = String (JS.digit36 m) r.
Proof.
  induction fuel as [|f IH]; intros n acc Hf; [lia|].
  cbn [JS.to_digits36].
  assert (Hmod : (n mod 36 < 36)%N) by (apply N.mod_lt; lia).
  destruct (n / 36 =? 0)%N; [eauto|].
  destruct f as [|f']; [simpl; eauto|].
  apply IH. lia.
Qed.

Lemma N_toString36_not_negative (n : N) (r : string) :
  JS.N_toString36 n <> String "-"%char r.
Proof.
  unfold JS.N_toString36.
  destruct (to_digits36_head (S (N.to_nat (N.log2 n))) n "" ltac:(lia))
    as (m & r' & Hm & ->).
  intros [= H _]. now apply (proj2 (digit36_sound _ Hm)).
Qed.

Lemma toString36_injective (z z' : Z) :
  JS.toString36 z = JS.toString36 z' -> z = z'.
Proof.
  assert (Hpos : forall p q, JS.N_toString36 (Npos p) = JS.N_toString36 (Npos q) ->
                             p = q).
  { intros p q H. apply (f_equal (JS.decode_from 0)) in H.
    rewrite !N_toString36_decode in H. congruence. }
  assert (Hzero : forall p, "0" <> JS.N_toString36 (Npos p)).
  { intros p H. apply (f_equal (JS.decode_from 0)) in H.
    rewrite N_toString36_decode in H. discriminate H. }
  destruct z as [|p|p], z' as [|q|q]; cbn [JS.toString36]; intros H;
    try reflexivity.
  - now apply Hzero in H.
  - discriminate H.
  - symmetry in H. now apply Hzero in H.
  - f_equal. now apply Hpos.
  - now apply N_toString36_not_negative in H.
  - discriminate H.
  - symmetry in H. now apply N_toString36_not_negative in H.
  - injection H as H. f_equal. now apply Hpos.
Qed.

Lemma reachable_keyed st :
  reachable st ->
  forall k issue, JS.get k (issues st) = Some issue ->
                  id issue = k /\ k = JS.toString36 (createdAt issue).
Proof.
  induction 1 as [|now e st _ IH]; intros k issue' H.
  - discriminate H.
  - destruct (handle_origin _ _ _ _ _ H)
      as [Hold|[_ [(Hc & Hid & Hk)|(issue & Hi & Hc & Hid)]]].
    + auto.
    + rewrite Hc. auto.
    + destruct (IH _ _ Hi) as [H1 H2]. rewrite Hid, Hc. auto.
Qed.

(** A creation that reads a clock value at which no stored issue was
    created gets an identifier no stored issue has, and replaces nothing. *)
Lemma creation_at_new_clock_value_is_fresh now token b st issue :
  reachable st ->
  (forall k stored, JS.get k (issues st) = Some stored -> createdAt stored <> now) ->
  fst (post_issues now token b st) = IssueJson issue ->
  JS.get (id issue) (issues st) = None
  /\ forall k stored,
       JS.get k (issues st) = Some stored ->
       JS.get k (issues (snd (post_issues now token b st))) = Some stored.
Proof.
  intros Hreach Hnew Hr.
  destruct (post_issues_inv _ _ _ _ _ Hr) as (Hid & _ & _ & ->).
  assert (Hfresh : forall k stored, JS.get k (issues st) = Some stored ->
                                    JS.toString36 now <> k).
  { intros k stored Hk Heq.
    destruct (reachable_keyed _ Hreach _ _ Hk) as [_ Hkey].
    rewrite Hkey in Heq. apply toString36_injective in Heq.
    now apply (Hnew _ _ Hk). }
  split.
  - rewrite Hid. destruct (JS.get (JS.toString36 now) (issues st)) eqn:E; auto.
    now apply Hfresh in E.
  - intros k stored Hk. cbn [issues].
    rewrite get_set_other; eauto.
Qed.

(** * Further properties of the handlers *)

(** ** Signup and login *)

Lemma signup_cases now b st :
  (exists pw r,
      s_password b = Some pw /\ s_role b = Some r
      /\ JS.truthy (Some pw) = true
      /\ (JS.truthy (s_email b) = true \/ JS.truthy (s_aadhaar b) = true)
      /\ signup now b st
         = (TokenUser (token_of (JS.toString36 now))
                      (mkUserView (JS.toString36 now) r (s_email b) (s_aadhaar b)
                                  (s_language b)),
            mkState (JS.set (JS.toString36 now)
                            (mkUser (JS.toString36 now) (s_email b) (s_aadhaar b)
                                    pw r (s_language b))
                            (users st))
                    (issues st) (object_prototype st)))
  \/ (signup now b st
      = (Error 400 "email or aadhaar, password and role are required", st)
      /\ ((JS.truthy (s_email b) = false /\ JS.truthy (s_aadhaar b) = false)
          \/ JS.truthy (s_password b) = false \/ s_role b = None)).
Proof.
  unfold signup.
  destruct (s_password b) as [pw|]; [|right; auto].
  destruct (s_role b) as [r|]; [|right; auto].
  destruct (JS.truthy (s_email b)) eqn:Ee, (JS.truthy (s_aadhaar b)) eqn:Ea,
           (JS.truthy (Some pw)) eqn:Ep; cbn [negb andb orb];
    try (right; split; [reflexivity|]; auto; fail);
    left; exists pw, r; auto 10.
Qed.

(** X1.  Signup answers 400 exactly when the payload has neither a
    non-empty e-mail nor a non-empty national ID, or no non-empty password,
    or no role; an error answer leaves the state as it was.  An accepted
    signup stores the user under the base-36 clock value, answers the token
    'dev-' followed by it, and does not touch the issues. *)
Theorem signup_rejects_exactly_incomplete_payloads now b st :
  (fst (signup now b st)
   = Error 400 "email or aadhaar, password and role are required"
   <-> (JS.truthy (s_email b) = false /\ JS.truthy (s_aadhaar b) = false)
       \/ JS.truthy (s_password b) = false \/ s_role b = None)
  /\ (forall code message,
        fst (signup now b st) = Error code message -> snd (signup now b st) = st)
  /\ (forall tok v,
        fst (signup now b st) = TokenUser tok v ->
        tok = "dev-" ++ JS.toString36 now
        /\ v_id v = JS.toString36 now
        /\ issues (snd (signup now b st)) = issues st
        /\ exists u, JS.get (v_id v) (users (snd (signup now b st))) = Some u
                     /\ view u = v /\ Some (u_password u) = s_password b).
Proof.
  destruct (signup_cases now b st)
    as [(pw & r & Hpw & Hr & Hp & Hid & ->)|[-> Hcond]]; cbn [fst snd].
  - split; [|split].
    + split; [discriminate|].
      intros [[He Ha]|[H|H]]; [destruct Hid; congruence | | congruence].
      rewrite Hpw in H. congruence.
    + discriminate.
    + intros tok v [= <- <-]. cbn [v_id issues users].
      repeat split. eexists. split; [apply get_set_same|]. auto.
  - split; [tauto|]. split; [reflexivity | discriminate].
Qed.

(** X2.  Two signups accepted at the same clock value get the same
    identifier and the same token: the second account replaces the first in
    the table, no entry is added, and the token handed to the first user
    now stands for the second account. *)
Theorem same_millisecond_signup_overwrites now b b' st tok v tok' v' :
  fst (signup now b st) = TokenUser tok v ->
  fst (signup now b' (snd (signup now b st))) = TokenUser tok' v' ->
  tok' = tok
  /\ v_id v' = v_id v
  /\ JS.keys (users (snd (signup now b' (snd (signup now b st)))))
     = JS.keys (users (snd (signup now b st)))
  /\ exists u',
       JS.get (v_id v) (users (snd (signup now b' (snd (signup now b st)))))
       = Some u'
       /\ view u' = v'.
Proof.
  intros H1 H2.
  destruct (signup_cases now b st)
    as [(pw & r & _ & _ & _ & _ & E1)|[E1 _]];
    rewrite E1 in H1, H2 |- *; cbn [fst snd] in *; [|discriminate H1].
  injection H1 as <- <-.
  match goal with |- context [signup now b' ?s] => set (st1 := s) in * end.
  destruct (signup_cases now b' st1)
    as [(pw' & r' & _ & _ & _ & _ & E2)|[E2 _]];
    rewrite E2 in H2 |- *; cbn [fst snd] in *; [|discriminate H2].
  injection H2 as <- <-. cbn [v_id users]. subst st1. cbn [users].
  repeat split.
  - rewrite (keys_set (JS.set _ _ (users st))), get_set_same. reflexivity.
  - eexists. split; [apply get_set_same | reflexivity].
Qed.

Lemma same_millisecond_signup_overwrites_witness :
  exists u',
    JS.get "loyw3v28"
      (users (snd (signup 1700000000000 ravi
                     (snd (signup 1700000000000 asha initial_state)))))
    = Some u'
    /\ u_email u' = Some "ravi@example.org".
Proof.
  destruct (same_millisecond_signup_overwrites 1700000000000 asha ravi
              initial_state _ _ _ _ eq_refl eq_refl)
    as (_ & _ & _ & u' & Hget & Hview).
  exists u'. split; [exact Hget|].
  exact (f_equal v_email Hview).
Defined.

Lemma token_users_untouched now token b st :
  users (snd (post_issues now token b st)) = users st.
Proof.
  unfold post_issues. destruct (resolve token); auto.
  destruct (b_description b), (b_priority b); auto.
  destruct (negb _); auto.
Qed.

Lemma handle_users_origin now e st k u :
  JS.get k (users (handle now e st)) = Some u ->
  JS.get k (users st) = Some u
  \/ (k = JS.toString36 now /\ u_id u = k
      /\ JS.truthy (Some (u_password u)) = true
      /\ (JS.truthy (u_email u) = true \/ JS.truthy (u_aadhaar u) = true)).
Proof.
  destruct e as [b|token b|k' b|]; cbn [handle].
  - destruct (signup_cases now b st)
      as [(pw & r & _ & _ & Hp & Hid & ->)|[-> _]]; cbn [snd users]; auto.
    destruct (String.eqb (JS.toString36 now) k) eqn:E.
    + apply String.eqb_eq in E. subst k. rewrite get_set_same.
      intros [= <-]. right. auto.
    + apply String.eqb_neq in E. rewrite get_set_other by assumption. auto.
  - rewrite token_users_untouched. auto.
  - unfold patch_issues. destruct (JS.get k' (issues st)); cbn [snd users]; auto.
    destruct (inherited k' (object_prototype st)) as [| |[|]|]; auto.
  - auto.
Qed.

Lemma reachable_users_keyed st :
  reachable st ->
  forall k u, JS.get k (users st) = Some u ->
              u_id u = k
              /\ JS.truthy (Some (u_password u)) = true
              /\ (JS.truthy (u_email u) = true \/ JS.truthy (u_aadhaar u) = true).
Proof.
  induction 1 as [|now e st _ IH]; intros k u H.
  - discriminate H.
  - destruct (handle_users_origin _ _ _ _ _ H) as [Hold|(-> & Hid & Hp & He)]; auto.
Qed.

Lemma find_none {V : Type} (p : V -> bool) (l : list V) :
  JS.find p l = None <-> forall x, In x l -> p x = false.
Proof.
  induction l as [|y r IH]; simpl.
  - split; [intros _ x [] | reflexivity].
  - destruct (p y) eqn:E.
    + split; [discriminate|]. intros H. rewrite (H y) in E by auto. discriminate.
    + rewrite IH. split.
      * intros H x [<-|Hin]; auto.
      * intros H x Hin. auto.
Qed.

(** X3.  In every state the server can reach, a stored user is filed under
    its own identifier, has a non-empty password and has a non-empty e-mail
    or a non-empty national ID. *)
Theorem stored_users_are_well_formed st k u :
  reachable st ->
  JS.get k (users st) = Some u ->
  u_id u = k
  /\ u_password u <> ""
  /\ ((exists e, u_email u = Some e /\ e <> "")
      \/ (exists a, u_aadhaar u = Some a /\ a <> "")).
Proof.
  intros Hreach Hget.
  destruct (reachable_users_keyed _ Hreach _ _ Hget) as (Hid & Hp & He).
  split; [exact Hid|]. split.
  - intros E. rewrite E in Hp. discriminate Hp.
  - destruct He as [He|He]; [left|right].
    + destruct (u_email u) as [[|c e]|]; try discriminate He.
      eexists. split; [reflexivity | discriminate].
    + destruct (u_aadhaar u) as [[|c a]|]; try discriminate He.
      eexists. split; [reflexivity | discriminate].
Qed.

Lemma asha_registered : reachable (snd (signup 1700000000000 asha initial_state)).
Proof. exact (reach_step 1700000000000 (Signup asha) initial_state reach_start). Qed.

Lemma stored_users_are_well_formed_witness :
  exists u,
    JS.get "loyw3v28" (users (snd (signup 1700000000000 asha initial_state)))
    = Some u
    /\ u_id u = "loyw3v28" /\ u_password u <> "".
Proof.
  eexists. split; [reflexivity|].
  destruct (stored_users_are_well_formed _ "loyw3v28" _ asha_registered eq_refl)
    as (Hid & Hp & _).
  split; [exact Hid | exact Hp].
Defined.

(** X4.  In every reachable state, login answers 401 exactly when no
    stored user has the identifier as e-mail or national ID together with
    the password; a successful login returns the token of a stored user with
    these credentials, and that token resolves to the identifier the user
    is stored under. *)
Theorem login_fails_exactly_without_match st identifier password :
  reachable st ->
  (login identifier password st = Error 401 "Invalid credentials"
   <-> forall k u, JS.get k (users st) = Some u ->
                   credentials_match identifier password u = false)
  /\ (forall tok v,
        login identifier password st = TokenUser tok v ->
        exists u,
          JS.get (v_id v) (users st) = Some u
          /\ view u = v
          /\ credentials_match identifier password u = true
          /\ tok = token_of (v_id v)
          /\ resolve (Some tok) = Some (v_id v)).
Proof.
  intros Hreach. pose proof (reachable_users_NoDup _ Hreach) as Hnd.
  unfold login.
  destruct (JS.find (credentials_match identifier password)
                    (JS.Object_values (users st))) as [found|] eqn:E.
  - destruct (find_some _ _ _ E) as [Hin Hm].
    apply In_Object_values in Hin. destruct Hin as [k Hk].
    apply (In_get _ _ _ Hnd) in Hk.
    destruct (reachable_users_keyed _ Hreach _ _ Hk) as (Hid & _).
    split.
    + split; [discriminate|]. intros H. rewrite (H _ _ Hk) in Hm. discriminate.
    + intros tok v [= <- <-]. exists found. cbn [view v_id].
      rewrite Hid. repeat split; auto using resolve_token_of.
  - split; [|discriminate]. split; [|reflexivity].
    intros _ k u Hk. apply (proj1 (find_none _ _) E).
    apply In_Object_values. exists k. now apply get_In.
Qed.

Lemma login_fails_exactly_without_match_witness :
  login "asha@example.org" "wrong" (snd (signup 1700000000000 asha initial_state))
  = Error 401 "Invalid credentials".
Proof.
  apply (proj1 (login_fails_exactly_without_match _ "asha@example.org" "wrong"
                  asha_registered)).
  intros k u H. apply get_In in H. cbn in H.
  destruct H as [H|[]]. injection H as <- <-. reflexivity.
Defined.

(** X5.  The token a signup answers, sent as the [token] header of a
    creation with a description and a priority, is accepted in any state,
    and the issue created carries the identifier of the signed-up user. *)
Theorem issued_token_creates_issue_for_its_user now b st tok v now' body st' :
  fst (signup now b st) = TokenUser tok v ->
  JS.truthy (b_description body) = true ->
  is_some (b_priority body) = true ->
  exists issue,
    fst (post_issues now' (Some tok) body st') = IssueJson issue
    /\ userId issue = v_id v
    /\ exists u, JS.get (userId issue) (users (snd (signup now b st))) = Some u
                 /\ view u = v.
Proof.
  intros Hs Hd Hp.
  destruct (signup_accepted _ _ _ _ _ Hs) as (pw & r & _ & _ & _ & -> & -> & Hu).
  destruct (b_description body) as [d|] eqn:Ed; [|discriminate Hd].
  destruct (b_priority body) as [p|] eqn:Ep; [|discriminate Hp].
  assert (Htok : JS.startsWith (token_of (JS.toString36 now)) "dev-" = true)
    by reflexivity.
  rewrite (post_issues_created now' _ body st' d p Htok Ed Hd Ep).
  eexists. cbn [fst userId v_id]. split; [reflexivity|].
  split; [reflexivity|]. rewrite Hu. eexists.
  split; [apply get_set_same | reflexivity].
Qed.

Lemma issued_token_creates_issue_for_its_user_witness :
  exists issue,
    fst (post_issues 1700000360000 (Some "dev-loyw3v28") sample_body initial_state)
    = IssueJson issue
    /\ userId issue = "loyw3v28".
Proof.
  destruct (issued_token_creates_issue_for_its_user 1700000000000 asha
              initial_state _ _ 1700000360000 sample_body initial_state
              eq_refl eq_refl eq_refl) as (issue & Hr & Hu & _).
  exists issue. split; [exact Hr | exact Hu].
Defined.

(** ** The media heuristic, again *)

Lemma sizeBytes_small data :
  sizeBytes data < 10000 <-> Z.of_nat (String.length (payload data)) <= 13332.
Proof.
  unfold sizeBytes, JS.ceil_div4.
  set (n := Z.of_nat (String.length (payload data))).
  split; intros H.
  - destruct (Z_le_gt_dec n 13332) as [|Hgt]; [assumption|]. exfalso.
    assert (10000 <= (n * 3 + 3) / 4) by (apply Z.div_le_lower_bound; lia). lia.
  - apply Z.div_lt_upper_bound; lia.
Qed.

(** X6.  A photo passes the heuristic exactly when the payload segment of
    its data string has at least 13,333 characters, and is rejected as
    'Image too small' otherwise; a video or an audio clip passes whatever its
    data string is. *)
Theorem photo_accepted_from_13333_characters (data : string) :
  (verifyMediaHeuristic (Some (mkMedia photo data)) = (true, None)
   <-> 13333 <= Z.of_nat (String.length (payload data)))
  /\ (verifyMediaHeuristic (Some (mkMedia photo data))
      = (false, Some "Image too small")
      <-> Z.of_nat (String.length (payload data)) < 13333)
  /\ verifyMediaHeuristic (Some (mkMedia video data)) = (true, None)
  /\ verifyMediaHeuristic (Some (mkMedia audio data)) = (true, None).
Proof.
  pose proof (sizeBytes_small data) as Hs.
  unfold verifyMediaHeuristic. cbn [m_type m_data media_type_eqb andb].
  destruct (sizeBytes data <? 10000) eqn:E.
  - apply Z.ltb_lt in E. apply Hs in E.
    repeat split; try discriminate; intros; try reflexivity; lia.
  - apply Z.ltb_ge in E.
    assert (~ Z.of_nat (String.length (payload data)) <= 13332)
      by (intros H; apply Hs in H; lia).
    repeat split; try discriminate; intros; try reflexivity; lia.
Qed.

Lemma split_at_separator (sep : ascii) (h t : string) :
  ~ In sep (list_ascii_of_string h) ->
  JS.split sep (h ++ String sep t) = h :: JS.split sep t.
Proof.
  induction h as [|c r IH]; cbn [append JS.split list_ascii_of_string]; intros H.
  - now rewrite Ascii.eqb_refl.
  - destruct (Ascii.eqb c sep) eqn:E.
    + apply Ascii.eqb_eq in E. exfalso. apply H. now left.
    + rewrite IH by (intros Hin; apply H; now right). reflexivity.
Qed.

(** X7.  For a data string made of a header, a comma and a body, neither
    holding a comma, the payload is the body; whatever follows a second
    comma is not counted in the size. *)
Theorem payload_is_second_segment (header body : string) :
  ~ In comma (list_ascii_of_string header) ->
  ~ In comma (list_ascii_of_string body) ->
  payload (header ++ String comma body) = body
  /\ forall rest,
       payload (header ++ String comma (body ++ String comma rest)) = body
       /\ sizeBytes (header ++ String comma (body ++ String comma rest))
          = sizeBytes (header ++ String comma body).
Proof.
  intros Hh Hb.
  assert (H1 : payload (header ++ String comma body) = body).
  { unfold payload. rewrite (split_at_separator _ _ _ Hh).
    rewrite (split_no_separator _ _ Hb). reflexivity. }
  assert (H2 : forall rest,
             payload (header ++ String comma (body ++ String comma rest)) = body).
  { intros rest. unfold payload. rewrite (split_at_separator _ _ _ Hh).
    rewrite (split_at_separator _ _ _ Hb). reflexivity. }
  split; [exact H1|]. intros rest. split; [apply H2|].
  unfold sizeBytes. now rewrite H1, H2.
Qed.

Lemma payload_is_second_segment_witness :
  payload "data:image/jpeg;base64,/9j/4AAQ" = "/9j/4AAQ"
  /\ payload "data:image/jpeg;base64,/9j/4AAQ,trailing" = "/9j/4AAQ".
Proof.
  assert (Hh : ~ In comma (list_ascii_of_string "data:image/jpeg;base64")).
  { cbv. intros H. repeat (destruct H as [H|H]; [discriminate H|]). exact H. }
  assert (Hb : ~ In comma (list_ascii_of_string "/9j/4AAQ")).
  { cbv. intros H. repeat (destruct H as [H|H]; [discriminate H|]). exact H. }
  destruct (payload_is_second_segment "data:image/jpeg;base64" "/9j/4AAQ" Hh Hb)
    as [H1 H2].
  split; [exact H1 | exact (proj1 (H2 "trailing"))].
Defined.

(** X8.  POST /verify always answers the category 'Other', gives a reason
    exactly when it rejects, and accepts exactly the media for which a
    creation stores the status Reported. *)
Theorem verify_agrees_with_creation (m : option Media) :
  exists accepted reason,
    verify m = Verdict accepted reason "Other"
    /\ (accepted = true <-> reason = None)
    /\ (accepted = true <-> initial_status m = Reported)
    /\ (accepted = false <-> initial_status m = Spam)
    /\ forall now tok b st issue,
         b_media b = m ->
         fst (post_issues now tok b st) = IssueJson issue ->
         (status issue = Reported <-> accepted = true).
Proof.
  unfold verify, initial_status.
  destruct (verifyMediaHeuristic m) as [accepted reason] eqn:E.
  exists accepted, reason. cbn [fst snd].
  assert (Hr : accepted = true <-> reason = None).
  { unfold verifyMediaHeuristic in E. destruct m as [mm|].
    - destruct (_ && _); injection E as <- <-; split; congruence.
    - injection E as <- <-. split; congruence. }
  split; [reflexivity|]. split; [exact Hr|].
  split; [destruct accepted; split; congruence|].
  split; [destruct accepted; split; congruence|].
  intros now tok b st issue Hm Hi. unfold post_issues in Hi.
  destruct (resolve tok); [|discriminate Hi].
  destruct (b_description b); [|discriminate Hi].
  destruct (b_priority b); [|discriminate Hi].
  destruct (negb _); [discriminate Hi|].
  cbn [fst] in Hi. injection Hi as <-. cbn [status].
  unfold initial_status. rewrite Hm, E. cbn [fst].
  destruct accepted; split; congruence.
Qed.

(** ** Listing with filters *)

Lemma In_when {A : Type} (c : bool) (p : A -> bool) (l : list A) (x : A) :
  In x (when c (filter p) l) <-> In x l /\ (c = true -> p x = true).
Proof.
  unfold when. destruct c.
  - rewrite filter_In. intuition.
  - intuition discriminate.
Qed.

Lemma In_bound_filter cmp (b : option JS.Num) (l : list Issue) (x : Issue) :
  In x (bound_filter cmp b l)
  <-> In x l /\ (forall n, b = Some n -> JS.truthy_num n = true ->
                           cmp (createdAt x) n = true).
Proof.
  unfold bound_filter. destruct b as [n|].
  - destruct (JS.truthy_num n) eqn:E.
    + rewrite filter_In. split.
      * intros [H1 H2]. split; [exact H1|]. now intros n' [= <-] _.
      * intros [H1 H2]. auto.
    + split; [|tauto]. intros H. split; [exact H|].
      intros n' [= <-] H'. congruence.
  - split; [|tauto]. intros H. split; [exact H|]. discriminate.
Qed.

Lemma parse_bound_Some Number (s : option string) (n : JS.Num) :
  parse_bound Number s = Some n
  <-> exists x, s = Some x /\ x <> "" /\ n = Number x.
Proof.
  unfold parse_bound. destruct s as [[|c x]|]; cbn [JS.truthy].
  - split; [discriminate|]. intros (x & [= <-] & H & _). congruence.
  - split.
    + intros [= <-]. eexists. repeat split. discriminate.
    + intros (y & [= <-] & _ & ->). reflexivity.
  - split; [discriminate|]. intros (x & H & _). discriminate H.
Qed.

Lemma truthy_Some (s : string) : JS.truthy (Some s) = true <-> s <> "".
Proof. destruct s; simpl; split; congruence. Qed.

(** X9.  GET /issues returns exactly the stored issues that satisfy every
    filter supplied as a non-empty string: equal category, equal status,
    equal priority, [createdAt >= Number(from)] and [createdAt <= Number(to)],
    the last two only when the number is neither 0 nor NaN. *)
Theorem list_filters_select (Number : string -> JS.Num) (q : Query) (st : State) :
  exists l,
    get_issues Number q st = IssueList l
    /\ forall i,
         In i l <->
         In i (JS.Object_values (issues st))
         /\ (forall c, q_category q = Some c -> c <> "" -> category i = c)
         /\ (forall s, q_status q = Some s -> s <> "" ->
                       status_string (status i) = s)
         /\ (forall p, q_priority q = Some p -> p <> "" ->
                       priority_string (priority i) = p)
         /\ (forall s, q_from q = Some s -> s <> "" ->
                       JS.truthy_num (Number s) = true ->
                       JS.ge_num (createdAt i) (Number s) = true)
         /\ (forall s, q_to q = Some s -> s <> "" ->
                       JS.truthy_num (Number s) = true ->
                       JS.le_num (createdAt i) (Number s) = true).
Proof.
  eexists. split; [reflexivity|]. intros i.
  rewrite !In_bound_filter, !In_when.
  assert (Hf : forall (x : option string) (v : string),
             (JS.truthy x = true -> field_is x v = true)
             <-> (forall c, x = Some c -> c <> "" -> v = c)).
  { intros x v. destruct x as [c|]; cbn [field_is].
    - rewrite truthy_Some. split.
      + intros H c' [= <-] Hc. symmetry. apply String.eqb_eq. auto.
      + intros H Hc. apply String.eqb_eq. symmetry. auto.
    - split; [discriminate | intros _ H; discriminate H]. }
  assert (Hb : forall (x : option string) cmp,
             (forall n, parse_bound Number x = Some n ->
                        JS.truthy_num n = true -> cmp (createdAt i) n = true)
             <-> (forall s, x = Some s -> s <> "" ->
                            JS.truthy_num (Number s) = true ->
                            cmp (createdAt i) (Number s) = true)).
  { intros x cmp. split.
    - intros H s Hs Hne. apply H. apply parse_bound_Some. eauto.
    - intros H n Hn. apply parse_bound_Some in Hn.
      destruct Hn as (s & Hs & Hne & ->). eauto. }
  rewrite !Hf, !Hb. tauto.
Qed.

(** X10.  A filter given as the empty string is no filter, and neither is
    a [from] or [to] bound whose number is 0 or NaN: with only such
    parameters every stored issue is returned, so [to=0] lists everything
    although no issue is that old. *)
Theorem void_filters_list_everything (Number : string -> JS.Num) (q : Query) st :
  JS.truthy (q_category q) = false ->
  JS.truthy (q_status q) = false ->
  JS.truthy (q_priority q) = false ->
  (forall s, q_from q = Some s -> JS.truthy_num (Number s) = false) ->
  (forall s, q_to q = Some s -> JS.truthy_num (Number s) = false) ->
  get_issues Number q st = IssueList (JS.Object_values (issues st)).
Proof.
  intros Hc Hs Hp Hf Ht. unfold get_issues. rewrite Hc, Hs, Hp. cbn [when].
  assert (Hb : forall x cmp l,
             (forall s, x = Some s -> JS.truthy_num (Number s) = false) ->
             bound_filter cmp (parse_bound Number x) l = l).
  { intros x cmp l H. unfold bound_filter, parse_bound.
    destruct x as [s|]; [|reflexivity].
    destruct (JS.truthy (Some s)); [|reflexivity].
    now rewrite (H s eq_refl). }
  now rewrite !Hb.
Qed.

Lemma void_filters_list_everything_witness :
  get_issues zero_or_NaN (mkQuery (Some "") None None (Some "abc") (Some "0"))
             two_issues
  = IssueList (JS.Object_values (issues two_issues)).
Proof.
  apply void_filters_list_everything; try reflexivity.
  - intros s [= <-]. reflexivity.
  - intros s [= <-]. reflexivity.
Defined.

(** ** Creation, again *)

(** X11.  A creation whose token is accepted answers 400 exactly when the
    description is missing or empty or the priority is missing; the token is
    checked first; and whenever no issue is created the state is left as it
    was. *)
Theorem creation_rejections now token b st :
  (fst (post_issues now token b st)
   = Error 400 "description and priority are required"
   <-> resolve token <> None
       /\ (JS.truthy (b_description b) = false \/ b_priority b = None))
  /\ (resolve token = None ->
      fst (post_issues now token b st) = Error 401 "Unauthorized")
  /\ ((forall issue, fst (post_issues now token b st) <> IssueJson issue) ->
      snd (post_issues now token b st) = st).
Proof.
  unfold post_issues. destruct (resolve token) as [uid|].
  - split; [|split; [discriminate|]].
    + destruct (b_description b) as [[|c d]|]; cbn [JS.truthy negb];
        destruct (b_priority b) as [p|]; cbn [fst];
        first [ split; [intros _; split; [discriminate|]; auto | reflexivity]
              | split; [discriminate | intros [_ [H|H]]; discriminate H] ].
    + destruct (b_description b) as [[|c d]|]; cbn [JS.truthy negb];
        destruct (b_priority b) as [p|]; cbn [fst snd];
        first [ reflexivity | intros H; exfalso; eapply H; reflexivity ].
  - cbn [fst snd]. split; [|split; reflexivity].
    split; [discriminate|]. intros [H _]. congruence.
Qed.

(** ** Status updates, again *)

Lemma set_set {V : Type} (o : JS.Obj V) k (v v' : V) :
  JS.set k v' (JS.set k v o) = JS.set k v' o.
Proof.
  induction o as [|[k0 v0] r IH]; simpl.
  - now rewrite String.eqb_refl.
  - destruct (String.eqb k k0) eqn:E; simpl; rewrite E; [reflexivity|].
    now rewrite IH.
Qed.



Lemma inherited_ThePrototype k p p' :
  inherited k p = ThePrototype -> inherited k p' = ThePrototype.
Proof.
  unfold inherited. destruct (String.eqb k "__proto__"); [reflexivity|].
  destruct (mem k Object_prototype_methods); [discriminate|].
  destruct (String.eqb k "status"); [destruct (x_status p); discriminate|].
  destruct (String.eqb k "department"); [destruct (x_department p); discriminate|].
  destruct (String.eqb k "priority"); [destruct (x_priority p); discriminate|].
  destruct (String.eqb k "updatedAt"); [destruct (x_updatedAt p); discriminate|].
  discriminate.
Qed.

Lemma patch_issue_merge now now' b b' issue :
  patch_issue now' b' (patch_issue now b issue)
  = patch_issue now' (merge_patch b' b) issue.
Proof.
  unfold patch_issue, merge_patch.
  destruct b as [s d p], b' as [s' d' p']; cbn.
  destruct s, s', d, d', p, p'; reflexivity.
Qed.

Lemma patch_prototype_merge now now' b b' x :
  patch_prototype now' b' (patch_prototype now b x)
  = patch_prototype now' (merge_patch b' b) x.
Proof.
  unfold patch_prototype, merge_patch.
  destruct b as [s d p], b' as [s' d' p'], x as [xs xd xp xu]; cbn.
  destruct s, s', d, d', p, p'; reflexivity.
Qed.

(** X13.  Two status updates of the same identifier, one after the other,
    answer and leave the state as the single update does whose body takes
    each field from the later update when it supplies it and from the
    earlier one otherwise; so repeating an update changes nothing more. *)
Theorem patch_after_patch now now' k b b' st :
  patch_issues now' k b' (snd (patch_issues now k b st))
  = patch_issues now' k (merge_patch b' b) st.
Proof.
  unfold patch_issues at 2 3.
  destruct (JS.get k (issues st)) as [existing|] eqn:E.
  - cbn [snd]. unfold patch_issues. cbn [issues users object_prototype].
    rewrite get_set_same, set_set, patch_issue_merge. reflexivity.
  - destruct (inherited k (object_prototype st)) as [| |[|]|] eqn:Ei; cbn [snd];
      unfold patch_issues; cbn [issues users object_prototype]; rewrite E.
    + rewrite (inherited_ThePrototype _ _ _ Ei), patch_prototype_merge.
      reflexivity.
    + now rewrite Ei.
    + now rewrite Ei.
    + now rewrite Ei.
    + now rewrite Ei.
Qed.

(** X14.  A status update addressed to an identifier that is not stored
    never answers with an issue and leaves both tables as they were,
    whatever it answers. *)
Theorem patch_of_unstored_id_keeps_tables now k b st :
  JS.get k (issues st) = None ->
  (forall issue, fst (patch_issues now k b st) <> IssueJson issue)
  /\ issues (snd (patch_issues now k b st)) = issues st
  /\ users (snd (patch_issues now k b st)) = users st.
Proof.
  intros H. unfold patch_issues. rewrite H.
  destruct (inherited k (object_prototype st)) as [| |[|]|];
    repeat split; discriminate.
Qed.

Lemma patch_of_unstored_id_keeps_tables_witness :
  issues (snd (patch_issues 1700000360000 "__proto__"
                 (mkPatchBody (Some Resolved) None None) reported_pothole))
  = issues reported_pothole.
Proof.
  exact (proj1 (proj2 (patch_of_unstored_id_keeps_tables 1700000360000 "__proto__"
                         (mkPatchBody (Some Resolved) None None)
                         reported_pothole eq_refl))).
Defined.

(** X15.  While nothing has been written onto [Object.prototype], a status
    update addressed to an identifier that is not stored is answered 404,
    with the state unchanged, exactly when the identifier is neither
    '__proto__' nor the name of a method every object inherits. *)
Theorem not_found_exactly_for_plain_unknown_ids now k b st :
  JS.get k (issues st) = None ->
  object_prototype st = mkPatched None None None None ->
  (patch_issues now k b st = (Error 404 "Issue not found", st)
   <-> k <> "__proto__" /\ ~ In k Object_prototype_methods)
  /\ (fst (patch_issues now k b st) <> Error 404 "Issue not found"
      -> fst (patch_issues now k b st) = OtherJson).
Proof.
  intros Hget Hproto. unfold patch_issues. rewrite Hget, Hproto.
  unfold inherited. cbn [x_status x_department x_priority x_updatedAt].
  assert (Hmem : forall l, mem k l = true <-> In k l).
  { induction l as [|x r IH]; cbn [mem In]; [split; [discriminate|tauto]|].
    rewrite orb_true_iff, IH, String.eqb_eq. split; intros [H|H]; auto. }
  destruct (String.eqb k "__proto__") eqn:E.
  - apply String.eqb_eq in E. cbn [fst]. split; [|reflexivity].
    split; [discriminate | tauto].
  - apply String.eqb_neq in E.
    destruct (mem k Object_prototype_methods) eqn:Em.
    + apply Hmem in Em. cbn [fst]. split; [|reflexivity].
      split; [discriminate | tauto].
    + assert (~ In k Object_prototype_methods)
        by (intros H; apply Hmem in H; congruence).
      destruct (String.eqb k "status"), (String.eqb k "department"),
        (String.eqb k "priority"), (String.eqb k "updatedAt"); cbn [fst];
        (split; [split; [auto | reflexivity] | congruence]).
Qed.

Lemma not_found_exactly_for_plain_unknown_ids_witness :
  patch_issues 1700000360000 "xyz" (mkPatchBody (Some Resolved) None None)
               reported_pothole
  = (Error 404 "Issue not found", reported_pothole).
Proof.
  apply (proj1 (not_found_exactly_for_plain_unknown_ids 1700000360000 "xyz"
                  (mkPatchBody (Some Resolved) None None) reported_pothole
                  eq_refl eq_refl)).
  split; [discriminate|].
  cbv. intros H. repeat (destruct H as [H|H]; [discriminate H|]). exact H.
Defined.

(** X16.  A status update addressed to '__proto__' is answered 200 and
    writes its fields onto [Object.prototype]: once it has carried a status,
    a status update addressed to 'status', which was answered 404 before, is
    no longer answered 404 and ends in an exception. *)
Theorem prototype_write_is_remembered now now' b b' st s :
  JS.get "__proto__" (issues st) = None ->
  JS.get "status" (issues st) = None ->
  x_status (object_prototype st) = None ->
  p_status b = Some s ->
  fst (patch_issues now' "status" b' st) = Error 404 "Issue not found"
  /\ fst (patch_issues now "__proto__" b st) = OtherJson
  /\ issues (snd (patch_issues now "__proto__" b st)) = issues st
  /\ fst (patch_issues now' "status" b' (snd (patch_issues now "__proto__" b st)))
     = Uncaught.
Proof.
  intros Hp Hs Hx Hb. unfold patch_issues. rewrite Hp, Hs.
  cbn [inherited String.eqb Ascii.eqb Bool.eqb mem Object_prototype_methods
       orb fst snd issues object_prototype patch_prototype x_status].
  rewrite Hs, Hx, Hb. cbn. auto.
Qed.

Lemma prototype_write_is_remembered_witness :
  fst (patch_issues 1700000720000 "status" (mkPatchBody None None None)
         (snd (patch_issues 1700000360000 "__proto__"
                 (mkPatchBody (Some Resolved) None None) reported_pothole)))
  = Uncaught.
Proof.
  exact (proj2 (proj2 (proj2
           (prototype_write_is_remembered 1700000360000 1700000720000
              (mkPatchBody (Some Resolved) None None) (mkPatchBody None None None)
              reported_pothole Resolved eq_refl eq_refl eq_refl eq_refl)))).
Defined.

(** ** The escalation timer, again *)

Lemma or_default_twice d dflt :
  or_default (or_default d dflt) dflt = or_default d dflt.
Proof.
  unfold or_default. destruct (JS.truthy d) eqn:E; [now rewrite E|].
  destruct dflt; reflexivity.
Qed.

Lemma escalated_stays_stale now now' issue :
  is_stale now issue = true -> now <= now' ->
  is_stale now' (escalate now issue) = true.
Proof.
  intros H Hle. unfold escalate. rewrite H. unfold is_stale in *.
  cbn [status createdAt status_eqb status_string String.eqb negb andb].
  apply andb_true_iff in H. destruct H as [_ H].
  apply Z.ltb_lt in H. apply Z.ltb_lt. lia.
Qed.

Lemma escalate_stale now issue :
  is_stale now issue = true ->
  escalate now issue
  = mkIssue (id issue) (userId issue) (category issue) (description issue)
            (priority issue) (or_default (department issue) "Commissioner")
            (emergency issue) Assigned (location issue) (media issue)
            (voice issue) (createdAt issue) now.
Proof. intros H. unfold escalate. now rewrite H. Qed.

(** X17.  Escalation is idempotent on the department: an issue escalated by
    a tick is, after any later tick, still Assigned with the department the
    first tick left, and only its [updatedAt] moves, to the later clock
    value. *)
Theorem escalation_is_idempotent_on_department now now' st k issue :
  JS.get k (issues st) = Some issue ->
  status issue <> Resolved ->
  7 * 24 * 60 * 60 * 1000 < now - createdAt issue ->
  now <= now' ->
  exists once twice,
    JS.get k (issues (tick now st)) = Some once
    /\ JS.get k (issues (tick now' (tick now st))) = Some twice
    /\ status twice = Assigned
    /\ department twice = department once
    /\ updatedAt twice = now'
    /\ (id twice, userId twice, category twice, description twice,
        priority twice, emergency twice, status twice, location twice,
        media twice, voice twice, createdAt twice)
       = (id once, userId once, category once, description once,
          priority once, emergency once, status once, location once,
          media once, voice once, createdAt once).
Proof.
  intros Hget Hs Hage Hle.
  pose proof (is_stale_true now issue Hs Hage) as Hstale.
  pose proof (escalated_stays_stale now now' issue Hstale Hle) as Hstale'.
  exists (escalate now issue), (escalate now' (escalate now issue)).
  cbn [tick issues]. rewrite !get_forEach_value, Hget. cbn [option_map].
  split; [reflexivity|]. split; [reflexivity|].
  rewrite (escalate_stale now' _ Hstale'). cbn [status department updatedAt
    id userId category description priority emergency location media voice
    createdAt].
  rewrite (escalate_stale now issue Hstale). cbn [status department updatedAt
    id userId category description priority emergency location media voice
    createdAt].
  rewrite or_default_twice. repeat split.
Qed.

Lemma escalation_is_idempotent_on_department_witness :
  exists once twice,
    JS.get pothole_id (issues (tick 1700604800001 reported_pothole)) = Some once
    /\ JS.get pothole_id
         (issues (tick 1700604860001 (tick 1700604800001 reported_pothole)))
       = Some twice
    /\ department once = Some "Commissioner"
    /\ department twice = Some "Commissioner".
Proof.
  assert (Hget : JS.get pothole_id (issues reported_pothole)
                 = Some (mkIssue pothole_id "loyv9qp8" "Other" "pothole" High None
                                 false Reported None (Some clip) None
                                 1700000000000 1700000000000)).
  { vm_compute. reflexivity. }
  destruct (escalation_is_idempotent_on_department 1700604800001 1700604860001
              reported_pothole pothole_id _ Hget)
    as (once & twice & H1 & H2 & _ & Hd & _).
  - discriminate.
  - cbn. lia.
  - lia.
  - exists once, twice. split; [exact H1|]. split; [exact H2|].
    assert (Ho : department once = Some "Commissioner").
    { vm_compute in H1. injection H1 as <-. reflexivity. }
    split; [exact Ho|]. now rewrite Hd.
Defined.

Lemma escalate_twice now issue :
  escalate now (escalate now issue) = escalate now issue.
Proof.
  destruct (is_stale now issue) eqn:E.
  - pose proof (escalated_stays_stale now now issue E (Z.le_refl _)) as E'.
    unfold escalate at 1. rewrite E'. unfold escalate. rewrite E. cbn.
    now rewrite or_default_twice.
  - unfold escalate. now rewrite E, E.
Qed.

(** X18.  A second tick at the same clock value changes nothing. *)
Theorem tick_twice_at_one_clock_value now st :
  tick now (tick now st) = tick now st.
Proof.
  unfold tick. cbn [users issues object_prototype]. f_equal.
  unfold JS.forEach_value. rewrite map_map.
  apply map_ext. intros [k v]. cbn [fst snd]. now rewrite escalate_twice.
Qed.

(** ** What an event can do to the tables *)

Lemma post_issues_no_issue now token b st :
  (forall issue, fst (post_issues now token b st) <> IssueJson issue) ->
  snd (post_issues now token b st) = st.
Proof.
  unfold post_issues. destruct (resolve token); [|reflexivity].
  destruct (b_description b); [|reflexivity].
  destruct (b_priority b); [|reflexivity].
  destruct (negb _); [reflexivity|].
  cbn [fst snd]. intros H. exfalso. eapply H. reflexivity.
Qed.

Lemma keys_set_grows {V : Type} (o : JS.Obj V) k v :
  exists added,
    JS.keys (JS.set k v o) = (JS.keys o ++ added)%list
    /\ (List.length added <= 1)%nat.
Proof.
  rewrite keys_set. destruct (JS.get k o).
  - exists []. rewrite app_nil_r. auto.
  - exists [k]. auto.
Qed.

(** X19.  No event removes or reorders a record: after any event the
    identifiers of each table are the ones before, in the same order,
    followed by at most one new identifier over the two tables. *)
Theorem events_only_append now e st :
  exists new_users new_issues,
    JS.keys (users (handle now e st)) = (JS.keys (users st) ++ new_users)%list
    /\ JS.keys (issues (handle now e st)) = (JS.keys (issues st) ++ new_issues)%list
    /\ (List.length new_users + List.length new_issues <= 1)%nat.
Proof.
  assert (Hsame : forall s : State,
             users s = users st -> issues s = issues st ->
             exists new_users new_issues,
               JS.keys (users s) = (JS.keys (users st) ++ new_users)%list
               /\ JS.keys (issues s) = (JS.keys (issues st) ++ new_issues)%list
               /\ (List.length new_users + List.length new_issues <= 1)%nat).
  { intros s -> ->. exists [], []. rewrite !app_nil_r. auto. }
  destruct e as [b|token b|k b|]; cbn [handle].
  - destruct (signup_cases now b st) as [(pw & r & _ & _ & _ & _ & ->)|[-> _]];
      cbn [snd]; [|now apply Hsame].
    cbn [users issues].
    destruct (keys_set_grows (users st) (JS.toString36 now)
                (mkUser (JS.toString36 now) (s_email b) (s_aadhaar b) pw r
                        (s_language b))) as (added & -> & Hlen).
    exists added, []. rewrite app_nil_r. split; [reflexivity|].
    split; [reflexivity|]. simpl. lia.
  - destruct (fst (post_issues now token b st)) as [| | | |issue| |] eqn:Hr;
      try (apply Hsame; [apply token_users_untouched|];
           f_equal; apply post_issues_no_issue;
           intros issue H; rewrite Hr in H; discriminate H).
    destruct (post_issues_inv _ _ _ _ _ Hr) as (_ & _ & _ & ->).
    cbn [users issues].
    destruct (keys_set_grows (issues st) (JS.toString36 now) issue)
      as (added & -> & Hlen).
    exists [], added. rewrite app_nil_r. auto.
  - exists [], []. rewrite !app_nil_r, patch_issues_keys.
    split; [|auto]. f_equal. unfold patch_issues.
    destruct (JS.get k (issues st)); [reflexivity|].
    destruct (inherited k (object_prototype st)) as [| |[|]|]; reflexivity.
  - exists [], []. rewrite !app_nil_r. cbn [tick users issues].
    rewrite keys_forEach_value. auto.
Qed.

(** ** Stored issues *)

Lemma handle_issue_cases now e st k issue' :
  JS.get k (issues (handle now e st)) = Some issue' ->
  JS.get k (issues st) = Some issue'
  \/ (exists token b, k = JS.toString36 now
                      /\ fst (post_issues now token b st) = IssueJson issue')
  \/ (exists b issue, JS.get k (issues st) = Some issue
                      /\ issue' = patch_issue now b issue)
  \/ (exists issue, JS.get k (issues st) = Some issue
                    /\ issue' = escalate now issue).
Proof.
  destruct e as [b|token b|k' b|]; cbn [handle].
  - destruct (signup_cases now b st) as [(pw & r & _ & _ & _ & _ & ->)|[-> _]];
      cbn [snd issues]; auto.
  - destruct (fst (post_issues now token b st)) as [| | | |issue| |] eqn:Hr;
      try (rewrite post_issues_no_issue;
           [auto | intros issue H; rewrite Hr in H; discriminate H]).
    destruct (post_issues_inv _ _ _ _ _ Hr) as (_ & _ & _ & ->). cbn [issues].
    destruct (String.eqb (JS.toString36 now) k) eqn:E.
    + apply String.eqb_eq in E. rewrite E, get_set_same. intros [= <-].
      right. left. exists token, b. auto.
    + apply String.eqb_neq in E. rewrite get_set_other by assumption. auto.
  - destruct (String.eqb k' k) eqn:E.
    + apply String.eqb_eq in E. subst k'.
      destruct (JS.get k (issues st)) as [issue|] eqn:Hget.
      * rewrite (patch_issues_own now k b st issue Hget). cbn [snd issues].
        rewrite get_set_same. intros [= <-]. right. right. left. eauto.
      * unfold patch_issues. rewrite Hget.
        destruct (inherited k (object_prototype st)) as [| |[|]|];
          cbn [snd issues]; rewrite Hget; discriminate.
    + apply String.eqb_neq in E. rewrite patch_issues_other_key by assumption.
      auto.
  - cbn [tick issues]. rewrite get_forEach_value.
    destruct (JS.get k (issues st)) as [issue|]; [|discriminate].
    cbn [option_map]. intros [= <-]. right. right. right. eauto.
Qed.

Lemma reachable_issue_invariant (P : string -> Issue -> Prop) :
  (forall now token b st issue,
      fst (post_issues now token b st) = IssueJson issue ->
      P (JS.toString36 now) issue) ->
  (forall now b k issue, P k issue -> P k (patch_issue now b issue)) ->
  (forall now k issue, P k issue -> P k (escalate now issue)) ->
  forall st, reachable st ->
             forall k issue, JS.get k (issues st) = Some issue -> P k issue.
Proof.
  intros Hpost Hpatch Htick st Hreach.
  induction Hreach as [|now e st _ IH]; intros k issue' H.
  - discriminate H.
  - destruct (handle_issue_cases _ _ _ _ _ H)
      as [Hold|[(token & b & -> & Hr)|[(b & issue & Hi & ->)|(issue & Hi & ->)]]];
      eauto.
Qed.

(** X21.  In every state the server can reach, a stored issue is filed
    under its own identifier, which is the base-36 numeral of its creation
    time; its description is not empty, and its [userId] is what follows
    the first four characters of a token starting with 'dev-'. *)
Theorem stored_issues_are_well_formed st k issue :
  reachable st ->
  JS.get k (issues st) = Some issue ->
  id issue = k
  /\ k = JS.toString36 (createdAt issue)
  /\ description issue <> ""
  /\ exists tok, JS.startsWith tok "dev-" = true /\ userId issue = JS.slice 4 tok.
Proof.
  intros Hreach.
  apply (reachable_issue_invariant
           (fun k issue =>
              id issue = k /\ k = JS.toString36 (createdAt issue)
              /\ description issue <> ""
              /\ exists tok, JS.startsWith tok "dev-" = true
                             /\ userId issue = JS.slice 4 tok));
    [| | |exact Hreach].
  - intros now token b st0 i Hr. unfold post_issues in Hr.
    destruct (resolve token) as [uid|] eqn:E; [|discriminate Hr].
    destruct (resolve_Some _ _ E) as (tok & _ & Hs & ->).
    destruct (b_description b) as [[|c d]|]; cbn [JS.truthy negb] in Hr;
      destruct (b_priority b); try discriminate Hr.
    cbn [fst] in Hr. injection Hr as <-. cbn.
    repeat split; try discriminate. eauto.
  - intros now b k0 i H. exact H.
  - intros now k0 i H. destruct (escalate_cases now i) as [->|(_ & Hc & Hi)]; auto.
    destruct H as (H1 & H2 & H3 & H4).
    rewrite Hc, Hi. repeat split; auto.
    + unfold escalate. destruct (is_stale now i); assumption.
    + unfold escalate. destruct (is_stale now i); assumption.
Qed.

Lemma reported_pothole_is_reachable : reachable reported_pothole.
Proof.
  exact (reach_step 1700000000000
           (PostIssues (Some "dev-loyv9qp8")
              (mkIssueBody (Some "pothole") None (Some High) None None
                           (Some clip) None None))
           initial_state reach_start).
Qed.

Lemma stored_issues_are_well_formed_witness :
  exists issue,
    JS.get "loyw3v28" (issues reported_pothole) = Some issue
    /\ id issue = "loyw3v28" /\ description issue <> "".
Proof.
  eexists. split; [reflexivity|].
  destruct (stored_issues_are_well_formed _ "loyw3v28" _
              reported_pothole_is_reachable eq_refl) as (Hid & _ & Hd & _).
  split; [exact Hid | exact Hd].
Defined.

(** X20.  In every reachable state, the identifier of a created issue is
    new to the table exactly when no stored issue was created at the same
    clock value; then every stored issue is still there, unchanged. *)
Theorem identifier_is_new_iff_clock_value_is_new now token b st issue :
  reachable st ->
  fst (post_issues now token b st) = IssueJson issue ->
  (JS.get (id issue) (issues st) = None
   <-> forall k stored, JS.get k (issues st) = Some stored ->
                        createdAt stored <> now)
  /\ (JS.get (id issue) (issues st) = None ->
      forall k stored,
        JS.get k (issues st) = Some stored ->
        JS.get k (issues (snd (post_issues now token b st))) = Some stored).
Proof.
  intros Hreach Hr.
  destruct (post_issues_inv _ _ _ _ _ Hr) as (Hid & _).
  assert (Hiff : JS.get (id issue) (issues st) = None
                 <-> forall k stored, JS.get k (issues st) = Some stored ->
                                      createdAt stored <> now).
  { split.
    - intros Hnone k stored Hk Heq.
      destruct (reachable_keyed _ Hreach _ _ Hk) as [_ Hkey].
      rewrite Heq, <- Hid in Hkey. subst k. congruence.
    - intros Hnew.
      exact (proj1 (creation_at_new_clock_value_is_fresh _ _ _ _ _ Hreach Hnew Hr)). }
  split; [exact Hiff|]. intros Hnone.
  exact (proj2 (creation_at_new_clock_value_is_fresh _ _ _ _ _ Hreach
                  (proj1 Hiff Hnone) Hr)).
Qed.

Lemma identifier_is_new_iff_clock_value_is_new_witness :
  exists issue,
    fst (post_issues 1700000360000 (Some "dev-loyv9qp8") (photo_body "garbage" Low)
           reported_pothole) = IssueJson issue
    /\ JS.get (id issue) (issues reported_pothole) = None.
Proof.
  eexists. split; [reflexivity|].
  refine (proj2 (proj1 (identifier_is_new_iff_clock_value_is_new 1700000360000
                          (Some "dev-loyv9qp8") (photo_body "garbage" Low)
                          reported_pothole _ reported_pothole_is_reachable
                          eq_refl)) _).
  intros k stored H. apply get_In in H. cbn in H.
  destruct H as [H|[]]. injection H as _ <-. cbn. lia.
Defined.

(** * The front end *)

(** ** What the forms send to the server *)

(** X22.  The server rejects the signup payload of the sign-in form exactly
    when the identifier or the password is empty.  Otherwise it files the
    identifier as e-mail when it holds an '@' and as national ID when it does
    not, never as both, and the stored user matches the identifier and the
    password at login. *)
Theorem form_signup_accepted_iff now identifier password r language st :
  (fst (signup now (App.signup_payload identifier password r language) st)
   = Error 400 "email or aadhaar, password and role are required"
   <-> identifier = "" \/ password = "")
  /\ (identifier <> "" -> password <> "" ->
      exists u,
        JS.get (JS.toString36 now)
          (users (snd (signup now
                         (App.signup_payload identifier password r language) st)))
        = Some u
        /\ u_password u = password /\ u_role u = r
        /\ (App.includes App.at_sign identifier = true ->
            u_email u = Some identifier /\ u_aadhaar u = None)
        /\ (App.includes App.at_sign identifier = false ->
            u_aadhaar u = Some identifier /\ u_email u = None)
        /\ credentials_match identifier password u = true).
Proof.
  destruct (signup_cases now (App.signup_payload identifier password r language) st)
    as [(pw & r' & Hpw & Hr & Hp & Hid & ->)|[-> Hcond]]; cbn [fst snd].
  - cbn [App.signup_payload s_password s_role s_email s_aadhaar s_language]
      in Hpw, Hr, Hid |- *.
    injection Hpw as <-. injection Hr as <-.
    apply truthy_Some in Hp.
    assert (Hi : identifier <> "").
    { intros ->. cbn in Hid. destruct Hid; discriminate. }
    split.
    + split; [discriminate|]. intros [H|H]; contradiction.
    + intros _ _. eexists. cbn [users]. split; [apply get_set_same|].
      cbn [u_password u_role u_email u_aadhaar].
      split; [reflexivity|]. split; [reflexivity|].
      split; [intros H; rewrite H; split; reflexivity|].
      split; [intros H; rewrite H; split; reflexivity|].
      unfold credentials_match.
      cbn [u_email u_aadhaar u_password].
        rewrite String.eqb_refl, andb_true_r.
        destruct (App.includes App.at_sign identifier); cbn [negb];
          rewrite field_is_same; auto using orb_true_r.
  - cbn [App.signup_payload s_password s_role s_email s_aadhaar] in Hcond.
    split.
    + split; [intros _|reflexivity].
      destruct Hcond as [[He Ha]|[Hp|Hr]]; [| |discriminate Hr].
      * left. destruct identifier as [|c i]; [reflexivity|].
        destruct (App.includes App.at_sign (String c i)); discriminate.
      * right. destruct password; [reflexivity | discriminate Hp].
    + intros Hi Hp. exfalso.
      destruct Hcond as [[He Ha]|[H|H]]; [| |discriminate H].
      * destruct identifier as [|c i]; [contradiction|].
        destruct (App.includes App.at_sign (String c i)); discriminate.
      * destruct password; [contradiction | discriminate H].
Qed.

(** X23.  The creation request that [handleAddIssue] sends is answered 401
    when no token starting with 'dev-' is stored in the browser.  With such
    a token and a non-empty description, the handler creates an issue of
    priority Medium that is no emergency and has no voice note and no
    department, whatever the reporter chose; its category is never empty. *)
Theorem form_creation_request now stored iso d st :
  (JS.startsWith (App.or_string stored "") "dev-" = false ->
   post_issues now (App.api_token stored) (App.api_body (App.newIssue iso d)) st
   = (Error 401 "Unauthorized", st))
  /\ (forall tok,
        stored = Some tok -> JS.startsWith tok "dev-" = true ->
        App.d_description d <> "" ->
        exists issue,
          fst (post_issues now (App.api_token stored)
                 (App.api_body (App.newIssue iso d)) st) = IssueJson issue
          /\ priority issue = Medium
          /\ emergency issue = false
          /\ voice issue = None
          /\ department issue = None
          /\ category issue = App.or_string (App.d_category d) "Other"
          /\ category issue <> ""
          /\ description issue = App.d_description d
          /\ media issue = Some (App.d_media d)
          /\ location issue = App.d_location d
          /\ userId issue = JS.slice 4 tok).
Proof.
  split.
  - intros H. unfold post_issues, resolve, App.api_token.
    now rewrite H, orb_true_r.
  - intros tok -> Htok Hd.
    assert (Hs : App.or_string (Some tok) "" = tok).
    { destruct tok; [discriminate Htok | reflexivity]. }
    unfold App.api_token. rewrite Hs.
    rewrite (post_issues_created now tok (App.api_body (App.newIssue iso d)) st
               (App.d_description d) Medium Htok eq_refl
               (proj2 (truthy_Some _) Hd) eq_refl).
    eexists. cbn [fst]. split; [reflexivity|]. cbn.
    repeat split.
    destruct (App.d_category d) as [[|c r]|]; discriminate.
Qed.

Lemma form_creation_request_witness :
  exists issue,
    fst (post_issues 1700000360000 (App.api_token (Some "dev-loyw3v28"))
           (App.api_body (App.newIssue "2023-11-14T22:19:20.000Z" urgent_draft))
           initial_state) = IssueJson issue
    /\ App.d_priority urgent_draft = Some High
    /\ priority issue = Medium.
Proof.
  destruct (proj2 (form_creation_request 1700000360000 (Some "dev-loyw3v28")
                     "2023-11-14T22:19:20.000Z" urgent_draft initial_state)
              "dev-loyw3v28" eq_refl eq_refl)
    as (issue & Hr & Hp & _).
  - discriminate.
  - exists issue. split; [exact Hr|]. split; [reflexivity | exact Hp].
Defined.

(** ** The local list of issues *)

(** X24.  The dashboard shows exactly the issues of the list that the
    viewer may see (all of them for an Admin, those reported under the
    viewer's name for a User) and that match the category filter, when it is
    set, and the status filter, when it is set to something other than
    'All'; it shows them in the order of the list. *)
Theorem dashboard_shows_matching_issues (user : App.User) (f : App.Filter)
        (l : list App.Issue) (i : App.Issue) :
  (In i (App.userIssues user f l) <->
   In i l
   /\ (App.role user = User_role -> App.reportedBy i = App.name user)
   /\ (forall c, App.f_category f = Some c -> c <> "" -> App.category i = c)
   /\ (forall s, App.f_status f = Some s -> s <> "" -> s <> "All" ->
                 App.status i = s))
  /\ exists keep, App.userIssues user f l = filter keep l.
Proof.
  assert (Hm : App.matches f i = true <->
               (forall c, App.f_category f = Some c -> c <> "" -> App.category i = c)
               /\ (forall s, App.f_status f = Some s -> s <> "" -> s <> "All" ->
                             App.status i = s)).
  { unfold App.matches. rewrite andb_true_iff.
    assert (Hc : (if JS.truthy (App.f_category f)
                  then field_is (App.f_category f) (App.category i)
                  else true) = true
                 <-> (forall c, App.f_category f = Some c -> c <> "" ->
                                App.category i = c)).
    { destruct (App.f_category f) as [[|c r]|]; cbn [JS.truthy field_is].
      - split; [intros _ c [= <-] H; contradiction | reflexivity].
      - rewrite String.eqb_eq. split.
        + intros H c' [= <-] _. now symmetry.
        + intros H. symmetry. apply H; [reflexivity | discriminate].
      - split; [discriminate | reflexivity]. }
    assert (Hs : (if JS.truthy (App.f_status f)
                     && negb (field_is (App.f_status f) "All")
                  then field_is (App.f_status f) (App.status i)
                  else true) = true
                 <-> (forall s, App.f_status f = Some s -> s <> "" -> s <> "All" ->
                                App.status i = s)).
    { destruct (App.f_status f) as [[|c r]|]; cbn [JS.truthy field_is andb].
      - split; [intros _ s [= <-] H; contradiction | reflexivity].
      - destruct (String.eqb (String c r) "All") eqn:E; cbn [negb].
        + apply String.eqb_eq in E.
          split; [intros _ s [= <-] _ H; contradiction | reflexivity].
        + apply String.eqb_neq in E. rewrite String.eqb_eq. split.
          * intros H s [= <-] _ _. now symmetry.
          * intros H. symmetry. apply H; [reflexivity | discriminate | exact E].
      - split; [discriminate | reflexivity]. }
    rewrite Hc, Hs. reflexivity. }
  unfold App.userIssues, App.visibleIssuesBase. split.
  - rewrite filter_In, Hm. destruct (App.role user).
    + rewrite filter_In, String.eqb_eq. intuition congruence.
    + intuition discriminate.
  - destruct (App.role user).
    + eexists (fun x => String.eqb (App.reportedBy x) (App.name user)
                        && App.matches f x).
      induction l as [|x r IH]; [reflexivity|]. cbn [filter].
      destruct (String.eqb (App.reportedBy x) (App.name user)); cbn [andb filter];
        [destruct (App.matches f x)|]; now rewrite IH.
    + now exists (App.matches f).
Qed.

Lemma handleUpdateStatus_unchanged target s (l : list App.Issue) :
  (forall i, In i l -> App.id i <> target) ->
  App.handleUpdateStatus target s l = l.
Proof.
  intros H. unfold App.handleUpdateStatus.
  rewrite <- (map_id l) at 2. apply map_ext_in. intros i Hi.
  destruct (String.eqb (App.id i) target) eqn:E; [|reflexivity].
  apply String.eqb_eq in E. now apply H in Hi.
Qed.

(** X25.  [handleUpdateStatus] keeps the length of the list and the
    identifier of every position; it gives the new status to every issue
    with the target identifier and changes nothing else of it, leaves the
    other issues as they are and, when no issue has that identifier, the
    whole list; doing it twice is doing it once. *)
Theorem status_update_touches_only_the_target target s (l : list App.Issue) :
  List.length (App.handleUpdateStatus target s l) = List.length l
  /\ map App.id (App.handleUpdateStatus target s l) = map App.id l
  /\ (forall n i, nth_error l n = Some i ->
        exists i', nth_error (App.handleUpdateStatus target s l) n = Some i'
                   /\ (App.id i <> target -> i' = i)
                   /\ (App.id i = target -> App.status i' = s)
                   /\ (App.id i', App.category i', App.description i',
                       App.location i', App.media i', App.reportedBy i',
                       App.priority i', App.emergency i', App.department i',
                       App.voice i')
                      = (App.id i, App.category i, App.description i,
                         App.location i, App.media i, App.reportedBy i,
                         App.priority i, App.emergency i, App.department i,
                         App.voice i))
  /\ ((forall i, In i l -> App.id i <> target) ->
      App.handleUpdateStatus target s l = l)
  /\ App.handleUpdateStatus target s (App.handleUpdateStatus target s l)
     = App.handleUpdateStatus target s l.
Proof.
  unfold App.handleUpdateStatus.
  split; [apply length_map|]. split.
  { rewrite map_map. apply map_ext. intros i.
    destruct (String.eqb (App.id i) target); reflexivity. }
  split.
  { intros n i Hn. rewrite nth_error_map, Hn. cbn [option_map].
    eexists. split; [reflexivity|].
    destruct (String.eqb (App.id i) target) eqn:E.
    - apply String.eqb_eq in E. cbn. repeat split; congruence.
    - apply String.eqb_neq in E. repeat split; congruence. }
  split; [apply handleUpdateStatus_unchanged|].
  rewrite map_map. apply map_ext. intros i.
  destruct (String.eqb (App.id i) target) eqn:E; cbn [App.id]; now rewrite E.
Qed.

(** X26.  A report that passes the report form and is added by
    [handleAddIssue] is the first issue of the local list, with the status
    'Pending', for which the dashboard has no colour.  Whoever is logged in
    with the role User, under whatever account, sees it first in the
    unfiltered dashboard, and nobody sees it under a filter on one of the
    four statuses. *)
Theorem new_report_on_the_dashboard media description location p emergency
        audioUrl category iso (prev : list App.Issue) (v : UserView) draft :
  App.handleSubmit media description location p emergency audioUrl category
  = Some draft ->
  exists i,
    App.handleAddIssue iso draft prev = i :: prev
    /\ App.status i = "Pending"
    /\ App.getStatusColor (App.status i) = None
    /\ App.description i = description
    /\ App.priority i = Some p
    /\ (v_role v = User_role ->
        exists rest,
          App.userIssues (App.logged_in v) (App.mkFilter None None)
                         (App.handleAddIssue iso draft prev)
          = i :: rest)
    /\ (forall user c s,
          In s ["Reported"; "Verified"; "Assigned"; "Resolved"] ->
          ~ In i (App.userIssues user (App.mkFilter c (Some s))
                                 (App.handleAddIssue iso draft prev))).
Proof.
  unfold App.handleSubmit. intros H.
  destruct media as [m|]; [|discriminate H].
  destruct location as [loc|]; [|discriminate H].
  destruct (JS.truthy (Some description)); [|discriminate H].
  injection H as <-.
  eexists. split; [reflexivity|]. cbn [App.newIssue App.status App.description
    App.priority App.d_description App.d_priority].
  split; [reflexivity|]. split; [reflexivity|]. split; [reflexivity|].
  split; [reflexivity|]. split.
  - intros Hrole. unfold App.userIssues, App.visibleIssuesBase, App.logged_in.
    cbn [App.role App.name]. rewrite Hrole. cbn. eauto.
  - intros user c s Hs Hin. unfold App.userIssues in Hin.
    apply filter_In in Hin. destruct Hin as [_ Hm].
    unfold App.matches in Hm. apply andb_true_iff in Hm. destruct Hm as [_ Hm].
    cbn [App.f_status App.status App.newIssue field_is] in Hm.
    cbn in Hs. destruct Hs as [<-|[<-|[<-|[<-|[]]]]]; discriminate Hm.
Qed.

Lemma new_report_on_the_dashboard_witness :
  exists i rest,
    App.userIssues (App.logged_in (mkUserView "loyw3v28" User_role None None None))
                   (App.mkFilter None None)
                   (App.handleAddIssue "2023-11-14T22:19:20.000Z" urgent_draft [])
    = i :: rest
    /\ App.status i = "Pending".
Proof.
  destruct (new_report_on_the_dashboard (Some clip) "pothole on 5th"
              (Some (mkLocation 0 0)) High true None "Pothole"
              "2023-11-14T22:19:20.000Z" []
              (mkUserView "loyw3v28" User_role None None None) urgent_draft
              eq_refl)
    as (i & _ & Hs & _ & _ & _ & Hsee & _).
  destruct (Hsee eq_refl) as [rest Hrest].
  exists i, rest. split; [exact Hrest | exact Hs].
Defined.

(** ** The captured photo and its classification *)

Lemma base64_of_payload (dataUrl : string) : App.base64_of dataUrl = payload dataUrl.
Proof.
  unfold App.base64_of, payload.
  destruct (nth_error (JS.split comma dataUrl) 1) as [[|c r]|]; reflexivity.
Qed.

(** X27.  The report form measures a captured photo as the server does, and
    keeps it exactly when its payload has at most 27,962,026 characters (20
    MiB once decoded); a photo it keeps is stored with the data URL
    unchanged. *)
Theorem photo_kept_up_to_20_MiB (dataUrl : string) :
  App.photo_size dataUrl = sizeBytes dataUrl
  /\ (App.takePhoto dataUrl = Some (mkMedia photo dataUrl)
      <-> Z.of_nat (String.length (payload dataUrl)) <= 27962026)
  /\ (App.takePhoto dataUrl = None
      <-> 27962026 < Z.of_nat (String.length (payload dataUrl))).
Proof.
  assert (Hsize : App.photo_size dataUrl = sizeBytes dataUrl).
  { unfold App.photo_size, sizeBytes. now rewrite base64_of_payload. }
  split; [exact Hsize|].
  unfold App.takePhoto. rewrite Hsize. unfold sizeBytes, JS.ceil_div4.
  set (n := Z.of_nat (String.length (payload dataUrl))).
  change (20 * 1024 * 1024) with 20971520.
  destruct (20971520 <? (n * 3 + 3) / 4) eqn:E.
  - apply Z.ltb_lt in E.
    assert (27962026 < n).
    { destruct (Z_lt_le_dec 27962026 n) as [|Hle]; [assumption|]. exfalso.
      assert ((n * 3 + 3) / 4 < 20971521)
        by (apply Z.div_lt_upper_bound; lia). lia. }
    split; split; try discriminate; intros; try reflexivity; lia.
  - apply Z.ltb_ge in E.
    assert (n <= 27962026).
    { destruct (Z_le_gt_dec n 27962026) as [|Hgt]; [assumption|]. exfalso.
      assert (20971521 <= (n * 3 + 3) / 4)
        by (apply Z.div_le_lower_bound; lia). lia. }
    split; split; try discriminate; intros; try reflexivity; lia.
Qed.

Lemma list_includes_In (x : string) (l : list string) :
  App.list_includes x l = true -> In x l.
Proof.
  induction l as [|y r IH]; simpl; [discriminate|].
  destruct (String.eqb y x) eqn:E; [apply String.eqb_eq in E; auto|].
  simpl. auto.
Qed.

(** X28.  Whatever the generative model answers, and also when it fails,
    the category of a report is one of the six known categories; and when
    the data string has no comma, or nothing after its first comma, the
    category is 'Other' and does not depend on the model. *)
Theorem classification_is_a_known_category
        (generate generate' : string -> string -> MediaType -> option string)
        (m : Media) :
  In (App.classifyIssueWithGemini generate m) App.ISSUE_CATEGORIES
  /\ (payload (m_data m) = "" ->
      App.classifyIssueWithGemini generate m = "Other"
      /\ App.classifyIssueWithGemini generate' m = "Other").
Proof.
  assert (Hother : In "Other" App.ISSUE_CATEGORIES) by (cbn; auto 10).
  split.
  - unfold App.classifyIssueWithGemini.
    destruct (JS.split comma (m_data m)) as [|header [|[|c r] rest]]; auto.
    destruct (App.mime_type header) as [[|c' r']|]; auto.
    destruct (generate _ _ _) as [text|]; auto.
    destruct (App.list_includes (App.trim text) App.ISSUE_CATEGORIES) eqn:E; auto.
    now apply list_includes_In.
  - unfold payload, App.classifyIssueWithGemini.
    destruct (JS.split comma (m_data m)) as [|header [|[|c r] rest]];
      cbn [nth_error]; auto.
    discriminate.
Qed.

Lemma classification_is_a_known_category_witness :
  App.classifyIssueWithGemini (fun _ _ _ => Some "Pothole")
    (mkMedia photo placeholder_url) = "Other".
Proof.
  refine (proj1 (proj2 (classification_is_a_known_category
                          (fun _ _ _ => Some "Pothole") (fun _ _ _ => None)
                          (mkMedia photo placeholder_url)) _)).
  reflexivity.
Defined.

Example classification_of_a_data_url :
  App.classifyIssueWithGemini
    (fun mime _ _ => if String.eqb mime "image/jpeg" then Some " Garbage "
                     else None)
    (mkMedia photo "data:image/jpeg;base64,/9j/4AAQ") = "Garbage"
  /\ App.mime_type "data:image/jpeg;base64" = Some "image/jpeg"
  /\ App.mime_type "data:;base64" = Some ""
  /\ App.trim "  Other  " = "Other".
Proof. repeat split. Qed.
